(** * mcp-sandbox: reflection, sandboxed execution and protocol dispatch

    A shallow embedding of the core of mcp-sandbox:
    - [JsString], [Regex]: the string methods and the regular-expression
      matching the reflector relies on;
    - [Reflection]: [ModuleReflector] (signature inference, schema
      generation, the walk over a module's exports);
    - [Sandbox]: [ToolExecutor] over a small model of the event loop;
    - [Server]: [MCPServer.handleMCPRequest] and [generateMCPConfig];
    - [Index]: the [MCPSandbox] facade;
    - [Push], [Routes]: the table of push clients and the HTTP routes of
      the server.

    Source text is modelled as a string of 8-bit characters; the string
    methods agree with their JavaScript counterparts on ASCII text. *)

From stdpp Require Import base option list strings gmap pretty.
From Stdlib Require Import Ascii String NArith Lia.

Local Open Scope string_scope.
Local Set Warnings "-register-all".

(** ** Abrupt completion

    A JavaScript computation either yields a value or throws.  In a
    [Completion] what is thrown is an [Error] (a [TypeError] when a property
    of [undefined] or [null] is read), of which the message is kept. *)

Inductive Abrupt (E A : Type) : Type :=
| Normal (a : A)
| Throw (e : E).
Arguments Normal {E A} a.
Arguments Throw {E A} e.

Abbreviation Completion := (Abrupt string).

Definition cbind {E A B} (c : Abrupt E A) (k : A → Abrupt E B) : Abrupt E B :=
  match c with
  | Normal a => k a
  | Throw e => Throw e
  end.

Notation "'let?' x ':=' c 'in' k" := (cbind c (λ x, k))
  (at level 10, x name, c at level 100, k at level 200).

Fixpoint cmap {A B} (f : A → Completion B) (l : list A) : Completion (list B) :=
  match l with
  | [] => Normal []
  | a :: l' =>
      let? b := f a in
      let? bs := cmap f l' in
      Normal (b :: bs)
  end.

(** ** String methods *)

Module JsString.

Definition eqb_ascii (a b : ascii) : bool := Ascii.eqb a b.

Definition code (c : ascii) : N := N_of_ascii c.

Definition between (lo hi : N) (c : ascii) : bool :=
  (lo <=? code c)%N && (code c <=? hi)%N.

(** White space and line terminators in the ASCII range: TAB, LF, VT, FF,
    CR and SPACE. *)
Definition isWhiteSpace (c : ascii) : bool :=
  between 9 13 c || (code c =? 32)%N.

Definition isDigit (c : ascii) : bool := between 48 57 c.
Definition isUpper (c : ascii) : bool := between 65 90 c.
Definition isLower (c : ascii) : bool := between 97 122 c.

(** The class [\w]. *)
Definition isWord (c : ascii) : bool :=
  isUpper c || isLower c || isDigit c || (code c =? 95)%N.

Definition isEmpty (s : string) : bool :=
  match s with "" => true | _ => false end.

(** [s.startsWith(p)] *)
Fixpoint startsWith (p s : string) : bool :=
  match p, s with
  | "", _ => true
  | String a p', String b s' => eqb_ascii a b && startsWith p' s'
  | String _ _, "" => false
  end.

(** [s.includes(needle)] *)
Fixpoint includes (needle s : string) : bool :=
  startsWith needle s ||
  match s with
  | "" => false
  | String _ s' => includes needle s'
  end.

Definition consHead (c : ascii) (parts : list string) : list string :=
  match parts with
  | [] => [String c ""]
  | h :: t => String c h :: t
  end.

(** [s.split(sep)] for a one-character separator. *)
Fixpoint split (sep : ascii) (s : string) : list string :=
  match s with
  | "" => [""]
  | String c s' =>
      if eqb_ascii c sep then "" :: split sep s'
      else consHead c (split sep s')
  end.

Fixpoint trimStart (s : string) : string :=
  match s with
  | "" => ""
  | String c s' => if isWhiteSpace c then trimStart s' else s
  end.

Fixpoint trimEnd (s : string) : string :=
  match s with
  | "" => ""
  | String c s' =>
      let r := trimEnd s' in
      if isWhiteSpace c && isEmpty r then "" else String c r
  end.

(** [s.trim()] *)
Definition trim (s : string) : string := trimEnd (trimStart s).

Definition lowerChar (c : ascii) : ascii :=
  if isUpper c then ascii_of_N (code c + 32) else c.

(** [s.toLowerCase()] *)
Fixpoint toLowerCase (s : string) : string :=
  match s with
  | "" => ""
  | String c s' => String (lowerChar c) (toLowerCase s')
  end.

(** [s.replace(/[...]/g, '')]: drop every character of the class. *)
Fixpoint removeAll (cls : ascii → bool) (s : string) : string :=
  match s with
  | "" => ""
  | String c s' =>
      if cls c then removeAll cls s' else String c (removeAll cls s')
  end.

Fixpoint take (n : nat) (s : string) : string :=
  match n, s with
  | S n', String c s' => String c (take n' s')
  | _, _ => ""
  end.

End JsString.

(** ** Regular expressions

    A backtracking matcher in continuation-passing style, with the priorities
    of ECMAScript matching: the left alternative first, greedy repetition, and
    the leftmost start position.  [Star] is the greedy repetition, [Lazy]
    the reluctant one; a turn of a repetition has to consume input, so the
    length of the input bounds the number of turns.  One capture group is
    enough for the patterns of this program. *)

Module Regex.
Import JsString.

Inductive regex : Type :=
| Eps
| Class (p : ascii → bool)
| Cat (r1 r2 : regex)
| Or (r1 r2 : regex)
| Star (r : regex)
| Lazy (r : regex)
| Group (r : regex).

Fixpoint Lit (s : string) : regex :=
  match s with
  | "" => Eps
  | String c s' => Cat (Class (eqb_ascii c)) (Lit s')
  end.

Definition Plus (r : regex) : regex := Cat r (Star r).
Definition Opt (r : regex) : regex := Or r Eps.

Definition orElse {R} (a b : option R) : option R :=
  match a with
  | Some x => Some x
  | None => b
  end.

Section Exec.
Context {R : Type}.

(** [exec r s cap k] matches [r] at the front of [s] and hands the rest
    of the input and the capture to [k]; when [k] fails the matcher
    backtracks into [r]. *)
Fixpoint exec (r : regex) (s : string) (cap : option string)
    (k : string → option string → option R) : option R :=
  match r with
  | Eps => k s cap
  | Class p =>
      match s with
      | String c s' => if p c then k s' cap else None
      | "" => None
      end
  | Cat r1 r2 => exec r1 s cap (λ s1 cap1, exec r2 s1 cap1 k)
  | Or r1 r2 => orElse (exec r1 s cap k) (exec r2 s cap k)
  | Star r1 =>
      (fix loop (fuel : nat) (s : string) (cap : option string) : option R :=
         match fuel with
         | O => k s cap
         | S fuel' =>
             orElse
               (exec r1 s cap (λ s1 cap1,
                  if (String.length s1 <? String.length s)%nat
                  then loop fuel' s1 cap1 else None))
               (k s cap)
         end) (String.length s) s cap
  | Lazy r1 =>
      (fix loop (fuel : nat) (s : string) (cap : option string) : option R :=
         match fuel with
         | O => k s cap
         | S fuel' =>
             orElse
               (k s cap)
               (exec r1 s cap (λ s1 cap1,
                  if (String.length s1 <? String.length s)%nat
                  then loop fuel' s1 cap1 else None))
         end) (String.length s) s cap
  | Group r1 =>
      exec r1 s cap (λ s1 _,
        k s1 (Some (take (String.length s - String.length s1) s)))
  end.
End Exec.

(** Match at the front of the input; the result is the capture group. *)
Definition matchHere (r : regex) (s : string) : option (option string) :=
  exec r s None (λ _ cap, Some cap).

(** [s.match(r)] for a pattern without flags: the leftmost match. *)
Fixpoint search (r : regex) (s : string) : option (option string) :=
  orElse (matchHere r s)
    match s with
    | "" => None
    | String _ s' => search r s'
    end.

(** [^r$]: the whole input. *)
Definition matchAll (r : regex) (s : string) : bool :=
  match exec r s None (λ rest _, if isEmpty rest then Some tt else None) with
  | Some _ => true
  | None => false
  end.

End Regex.

(** ** Values, functions and the exported value graph *)

Module Js.

(** Data that crosses the tool boundary: arguments and results.  Objects
    list their own enumerable properties in property order.  [VCircular]
    is an object that holds itself; [detail] is what the message of
    [JSON.stringify] says about the circle. *)
Inductive Value : Type :=
| VUndefined
| VNull
| VBool (b : bool)
| VNum (n : Z)
| VBigInt (n : Z)
| VStr (s : string)
| VArr (elems : list Value)
| VObj (props : list (string * Value))
| VCircular (detail : string).

(** [String(v)] *)
Fixpoint String_of (v : Value) : string :=
  match v with
  | VUndefined => "undefined"
  | VNull => "null"
  | VBool true => "true"
  | VBool false => "false"
  | VNum n => pretty n
  | VBigInt n => pretty n
  | VStr s => s
  | VArr elems =>
      String.concat ","
        ((fix each (l : list Value) : list string :=
            match l with
            | [] => []
            | VUndefined :: l' => "" :: each l'
            | VNull :: l' => "" :: each l'
            | e :: l' => String_of e :: each l'
            end) elems)
  | VObj _ => "[object Object]"
  | VCircular _ => "[object Object]"
  end.

(** [JSON.stringify(v)] throws a [TypeError] on a [BigInt] and on a
    circular structure, wherever it meets one; the result is the message of
    that error, [None] when the value can be serialised. *)
Fixpoint stringifyError (v : Value) : option string :=
  match v with
  | VBigInt _ => Some "Do not know how to serialize a BigInt"
  | VCircular detail => Some ("Converting circular structure to JSON" ++ detail)
  | VArr elems =>
      (fix first (l : list Value) : option string :=
         match l with
         | [] => None
         | e :: l' =>
             match stringifyError e with
             | Some msg => Some msg
             | None => first l'
             end
         end) elems
  | VObj props =>
      (fix first (l : list (string * Value)) : option string :=
         match l with
         | [] => None
         | (_, e) :: l' =>
             match stringifyError e with
             | Some msg => Some msg
             | None => first l'
             end
         end) props
  | _ => None
  end.

(** [JSON.stringify] of an argument bag. *)
Fixpoint stringifyErrorOfBag (args : list (string * Value)) : option string :=
  match args with
  | [] => None
  | (_, v) :: rest =>
      match stringifyError v with
      | Some msg => Some msg
      | None => stringifyErrorOfBag rest
      end
  end.

(** What a [throw] or a rejection carries:
    - [ErrorObject]: an [Error] of the realm of the executor and the
      server, such as the errors they throw themselves;
    - [ForeignError]: an error object made in another realm, as the errors
      a loaded module creates are; it is no instance of the executor's
      [Error], and [String] shows it as its name, a colon and its message;
    - [NonError]: a value that is not an error;
    - [Unprintable]: an object on which [String] throws [complaint], such
      as one without a prototype (a [TypeError]) or one whose [toString]
      throws. *)
Inductive Thrown : Type :=
| ErrorObject (message : string)
| ForeignError (name message : string)
| NonError (v : Value)
| Unprintable (complaint : Thrown).

Inductive Settlement : Type :=
| Fulfilled (v : Value)
| Rejected (reason : Thrown).

(** What a call hands back: a plain value, or a promise together with its
    fate: [Some (delay, s)] settles as [s], [delay] milliseconds after
    the call returned; [None] stays pending for ever. *)
Inductive Output : Type :=
| Plain (v : Value)
| PromiseOf (fate : option (N * Settlement)).

Inductive Exit : Type :=
| Returns (output : Output)
| Raises (e : Thrown).

(** One call of a function: the time its synchronous part runs for, in
    milliseconds, and how that part ends. *)
Record Run : Type := {
  elapsed : N;
  exit : Exit;
}.

(** A function value: its source text and its behaviour on positional
    arguments. *)
Record Function : Type := {
  toString : string;
  apply : list Value → Run;
}.

(** The value of [module.exports], as far as the reflector inspects it.
    [XAncestor] is a member whose value is one of the objects, other than an
    array, that enclose it: the graph of the exports reaches itself there. *)
Inductive Export : Type :=
| XFunction (func : Function)
| XObject (entries : list (string * Export))
| XArray (elems : list Export)
| XAncestor
| XNull
| XUndefined
| XBoolean (b : bool)
| XNumber (n : Z)
| XString (s : string).

(** [Object.entries(obj)]; the indices of an array are its keys. *)
Definition Object_entries (obj : Export) : list (string * Export) :=
  match obj with
  | XObject entries => entries
  | XArray elems => imap (λ i e, (pretty i, e)) elems
  | _ => []
  end.

(** [Object.values(obj)] of an argument bag. *)
Definition Object_values (obj : list (string * Value)) : list Value :=
  map snd obj.

(** *** Objects used as maps

    An object literal filled by assignments [o[k] = v]: its own properties,
    and the prototype it was given.  The key [__proto__] is no own property:
    assigning an object to it sets the prototype, and reading it yields the
    prototype. *)
Record Obj (V : Type) : Type := {
  own : gmap string V;
  prototype : option V;
}.
Arguments own {V} o.
Arguments prototype {V} o.

Definition PROTO : string := "__proto__".

(** [o[k]], as far as an assigned value is found. *)
Global Instance Obj_lookup {V} : Lookup string V (Obj V) := λ k o,
  if decide (k = PROTO) then prototype o else own o !! k.

(** [o[k] = v] *)
Global Instance Obj_insert {V} : Insert string V (Obj V) := λ k v o,
  if decide (k = PROTO) then {| own := own o; prototype := Some v |}
  else {| own := <[k := v]> (own o); prototype := prototype o |}.

(** [o[k]] changed in place. *)
Global Instance Obj_alter {V} : Alter string V (Obj V) := λ f k o,
  if decide (k = PROTO) then {| own := own o; prototype := f <$> prototype o |}
  else {| own := alter f k (own o); prototype := prototype o |}.

(** [{}] *)
Global Instance Obj_empty {V} : Empty (Obj V) := {| own := ∅; prototype := None |}.

(** [Object.keys(o)], as a set. *)
Definition Object_keys {V} (o : Obj V) : gset string := dom (own o).

End Js.

(** ** The reflector (reflection.ts) *)

Module Reflection.
Import JsString Regex Js.

Inductive ParamType : Type := TString | TNumber | TBoolean | TArray | TObject.

Global Instance ParamType_eq_dec : EqDecision ParamType.
Proof. solve_decision. Defined.

Definition typeName (t : ParamType) : string :=
  match t with
  | TString => "string"
  | TNumber => "number"
  | TBoolean => "boolean"
  | TArray => "array"
  | TObject => "object"
  end.

Record MCPToolParameter : Type := {
  name : string;
  hasDefault : bool;
  type : ParamType;
}.

(** *** [Number(s)] is not [NaN]

    The grammar of StringToNumber: the empty string (after trimming)
    converts to 0; otherwise an optionally signed decimal literal or
    [Infinity], or an unsigned binary, octal or hexadecimal integer. *)

Definition oneOf (chars : string) : regex :=
  Class (λ c, includes (String c "") chars).

Definition digits : regex := Plus (Class isDigit).

Definition exponent : regex :=
  Cat (oneOf "eE") (Cat (Opt (oneOf "+-")) digits).

Definition unsignedDecimal : regex :=
  Or (Lit "Infinity")
    (Or (Cat digits (Cat (Opt (Lit ".")) (Cat (Star (Class isDigit)) (Opt exponent))))
        (Cat (Lit ".") (Cat digits (Opt exponent)))).

Definition isHexDigit (c : ascii) : bool :=
  isDigit c || between 65 70 c || between 97 102 c.

Definition nonDecimal : regex :=
  Cat (Lit "0")
    (Or (Cat (oneOf "bB") (Plus (oneOf "01")))
        (Or (Cat (oneOf "oO") (Plus (Class (between 48 55))))
            (Cat (oneOf "xX") (Plus (Class isHexDigit))))).

Definition numericLiteral : regex :=
  Or (Cat (Opt (oneOf "+-")) unsignedDecimal) nonDecimal.

(** [isNaN(Number(s))] *)
Definition Number_isNaN (s : string) : bool :=
  let t := trim s in
  negb (isEmpty t || matchAll numericLiteral t).

(** *** [inferParameterType] *)

Definition DQUOTE : string := String "034"%char "".

(** [parts[i].trim()]: reading [trim] off a missing element throws. *)
Definition trimAt (i : nat) (parts : list string) : Completion string :=
  match parts !! i with
  | Some p => Normal (trim p)
  | None => Throw "Cannot read properties of undefined (reading 'trim')"
  end.

(** The five checks on the default value, in source order; [None] when
    the function falls through to the name patterns. *)
Definition typeOfDefault (defaultValue : string) : option ParamType :=
  if String.eqb defaultValue "true" || String.eqb defaultValue "false" then Some TBoolean
  else if negb (Number_isNaN defaultValue) then Some TNumber
  else if startsWith DQUOTE defaultValue || startsWith "'" defaultValue then Some TString
  else if startsWith "[" defaultValue then Some TArray
  else if startsWith "{" defaultValue then Some TObject
  else None.

Definition typeOfName (name : string) : ParamType :=
  if includes "count" name || includes "num" name || includes "size" name then TNumber
  else if includes "flag" name || includes "enable" name || includes "is" name then TBoolean
  else if includes "list" name || includes "array" name then TArray
  else if includes "config" name || includes "options" name then TObject
  else TString.

Definition inferParameterType (param : string) : Completion ParamType :=
  let? early :=
    if includes "=" param then
      let? defaultValue := trimAt 1 (split "=" param) in
      Normal (typeOfDefault defaultValue)
    else Normal None in
  match early with
  | Some t => Normal t
  | None =>
      let? name := trimAt 0 (split "=" param) in
      Normal (typeOfName (toLowerCase name))
  end.

(** *** [extractParameters] *)

Definition ws : regex := Star (Class isWhiteSpace).
Definition notClose : regex := Star (Class (λ c, negb (eqb_ascii c ")"))).

(** The pattern of [funcStr.match]: a head, which is either the keyword
    [function], white space, an optional name and white space, or an arrow
    head (a word or a parenthesised list, white space and [=>]); then white
    space and a parenthesised list without a closing parenthesis in it,
    which is the capture group. *)
Definition signaturePattern : regex :=
  Cat
    (Or (Cat (Lit "function") (Cat ws (Cat (Star (Class isWord)) ws)))
        (Or (Cat (Plus (Class isWord)) (Cat ws (Lit "=>")))
            (Cat (Lit "(") (Cat notClose (Cat (Lit ")") (Cat ws (Lit "=>")))))))
    (Cat ws (Cat (Lit "(") (Cat (Group notClose) (Lit ")")))).

(** The class of braces and square brackets removed from a name. *)
Definition isDestructuring (c : ascii) : bool :=
  includes (String c "") "{}[]".

(** [const [name] = parts]; [name.replace(...)] throws on [undefined]. *)
Definition cleanFirst (parts : list string) : Completion string :=
  match parts with
  | name :: _ => Normal (removeAll isDestructuring name)
  | [] => Throw "Cannot read properties of undefined (reading 'replace')"
  end.

Definition describeParameter (param : string) : Completion MCPToolParameter :=
  let hasDefault := includes "=" param in
  let? cleanName := cleanFirst (map trim (split "=" param)) in
  let? ty := inferParameterType param in
  Normal {| name := cleanName; hasDefault := hasDefault; type := ty |}.

Definition extractParameters (funcStr : string) : Completion (list MCPToolParameter) :=
  match search signaturePattern funcStr with
  | None => Normal []
  | Some None => Normal []
  | Some (Some list) =>
      if isEmpty list then Normal []
      else
        cmap describeParameter
          (filter (λ param, negb (isEmpty param)) (map trim (split "," list)))
  end.

(** *** [extractJSDoc] *)

Definition anyChar : regex := Class (λ _, true).

(** A documentation comment: the opener, white space, the captured text
    (as short as possible) and white space before the closing marker. *)
Definition jsdocPattern : regex :=
  Cat (Lit "/**") (Cat ws (Cat (Group (Lazy anyChar)) (Cat ws (Lit "*/")))).

(** White space, a star and at most one more white-space character at the
    start of a line. *)
Definition lineMarker : regex :=
  Cat ws (Cat (Lit "*") (Opt (Class isWhiteSpace))).

Definition stripMarker (line : string) : string :=
  match exec lineMarker line None (λ rest _, Some rest) with
  | Some rest => rest
  | None => line
  end.

Definition extractJSDoc (funcStr : string) : option string :=
  match search jsdocPattern funcStr with
  | Some (Some body) =>
      Some (trim (String.concat " " (map stripMarker (split "010"%char body))))
  | _ => None
  end.

(** *** Tool descriptors *)

Record Items : Type := { items_type : ParamType }.

Record SchemaEntry : Type := {
  entry_type : ParamType;
  entry_description : string;
  items : option Items;
}.

Record InputSchema : Type := {
  properties : Obj SchemaEntry;
  required : list string;
}.

Record MCPTool : Type := {
  tool_name : string;
  description : string;
  inputSchema : InputSchema;
  handler : Function;
}.

(** One turn of the loop of [generateParameterSchema]. *)
Definition addParameter (schema : Obj SchemaEntry) (param : MCPToolParameter)
    : Obj SchemaEntry :=
  let schema1 :=
    <[ name param := {| entry_type := type param;
                        entry_description := "Parameter: " ++ name param;
                        items := None |} ]> schema in
  if decide (type param = TArray) then
    alter (λ e, {| entry_type := entry_type e;
                   entry_description := entry_description e;
                   items := Some {| items_type := TString |} |})
      (name param) schema1
  else schema1.

Definition generateParameterSchema (params : list MCPToolParameter)
    : Obj SchemaEntry :=
  foldl addParameter ∅ params.

Definition requiredNames (params : list MCPToolParameter) : list string :=
  map name (filter (λ p, negb (hasDefault p)) params).

Definition analyzeFunction (name : string) (func : Function) : Completion MCPTool :=
  let funcStr := toString func in
  let? params := extractParameters funcStr in
  let description :=
    match extractJSDoc funcStr with
    | Some d => if isEmpty d then "Execute " ++ name ++ " function" else d
    | None => "Execute " ++ name ++ " function"
    end in
  Normal {| tool_name := name;
            description := description;
            inputSchema := {| properties := generateParameterSchema params;
                              required := requiredNames params |};
            handler := func |}.

(** *** [analyzeExports] *)

Definition joinName (prefix key : string) : string :=
  if isEmpty prefix then key else prefix ++ "_" ++ key.

Definition stackOverflow : string := "Maximum call stack size exceeded".

(** The body of the loop of [traverse] on one entry, with the recursive
    call on a nested object unfolded; [tools] is the array under
    construction.  There is no guard against a graph that reaches itself:
    on a member that is one of the enclosing objects the recursion goes on
    until the stack overflows. *)
Fixpoint visit (value : Export) (toolName : string) (tools : list MCPTool)
    : Completion (list MCPTool) :=
  match value with
  | XFunction func =>
      let? tool := analyzeFunction toolName func in
      Normal (tools ++ [tool])%list
  | XObject entries =>
      (fix each (es : list (string * Export)) (tools : list MCPTool) :=
         match es with
         | [] => Normal tools
         | (key, v) :: rest =>
             let? tools1 := visit v (joinName toolName key) tools in
             each rest tools1
         end) entries tools
  | XAncestor => Throw stackOverflow
  | _ => Normal tools
  end.

Fixpoint forEntries (prefix : string) (es : list (string * Export))
    (tools : list MCPTool) : Completion (list MCPTool) :=
  match es with
  | [] => Normal tools
  | (key, value) :: rest =>
      let? tools1 := visit value (joinName prefix key) tools in
      forEntries prefix rest tools1
  end.

Definition traverse (obj : Export) (prefix : string) (tools : list MCPTool)
    : Completion (list MCPTool) :=
  forEntries prefix (Object_entries obj) tools.

Definition analyzeExports (exports : Export) : Completion (list MCPTool) :=
  match exports with
  | XFunction func =>
      let? tool := analyzeFunction "default" func in
      Normal [tool]
  | XObject _ | XArray _ => traverse exports "" []
  | _ => Normal []
  end.

End Reflection.

(** ** The executor (sandbox.ts) *)

Module Sandbox.
Import Js Reflection.

(** *** The event loop

    The clock in milliseconds and the armed timers.  A timer of
    [executeTool] rejects the promise of the call that armed it with
    [Error('Execution timeout')].  [clockReads] counts the calls of
    [Date.now()], so that one can say when timing starts. *)

Record Timer : Type := { timer_id : nat; due : N }.

Record EventLoop : Type := {
  now : N;
  timers : list Timer;
  nextTimer : nat;
  clockReads : nat;
}.

Definition Date_now (l : EventLoop) : N * EventLoop :=
  (now l, {| now := now l; timers := timers l; nextTimer := nextTimer l;
             clockReads := S (clockReads l) |}).

Definition setTimeout (delay : N) (l : EventLoop) : nat * EventLoop :=
  (nextTimer l,
   {| now := now l;
      timers := {| timer_id := nextTimer l; due := now l + delay |} :: timers l;
      nextTimer := S (nextTimer l);
      clockReads := clockReads l |}).

Definition clearTimeout (id : nat) (l : EventLoop) : EventLoop :=
  {| now := now l;
     timers := filter (λ t, timer_id t ≠ id) (timers l);
     nextTimer := nextTimer l;
     clockReads := clockReads l |}.

Definition findTimer (id : nat) (l : EventLoop) : option Timer :=
  List.find (λ t, Nat.eqb (timer_id t) id) (timers l).

(** Synchronous code runs for [ms] milliseconds: the clock moves, and no
    timer callback runs meanwhile. *)
Definition advance (ms : N) (l : EventLoop) : EventLoop :=
  {| now := now l + ms; timers := timers l; nextTimer := nextTimer l;
     clockReads := clockReads l |}.

(** The loop idles until time [t], when a callback settles the promise
    awaited; a timer that fired is gone. *)
Definition wake (t : N) (fired : option Timer) (l : EventLoop) : EventLoop :=
  {| now := t;
     timers := match fired with
               | Some tm => filter (λ t', timer_id t' ≠ timer_id tm) (timers l)
               | None => timers l
               end;
     nextTimer := nextTimer l;
     clockReads := clockReads l |}.

(** The result of awaiting an asynchronous function. *)
Inductive Outcome (A : Type) : Type :=
| Resolved (a : A) (l : EventLoop)
| RaisedOut (e : Thrown) (l : EventLoop)
| Pending (l : EventLoop).
Arguments Resolved {A} a l.
Arguments RaisedOut {A} e l.
Arguments Pending {A} l.

(** *** [ToolExecutor] *)

Record ExecutionResult : Type := {
  success : bool;
  result : option Value;
  error : option string;
  toolName : string;
  executionTime : N;
}.

(** A [Map] with string keys, in insertion order. *)
Fixpoint Map_set {V} (k : string) (v : V) (m : list (string * V)) : list (string * V) :=
  match m with
  | [] => [(k, v)]
  | (k', v') :: m' =>
      if String.eqb k' k then (k, v) :: m' else (k', v') :: Map_set k v m'
  end.

Fixpoint Map_get {V} (k : string) (m : list (string * V)) : option V :=
  match m with
  | [] => None
  | (k', v') :: m' => if String.eqb k' k then Some v' else Map_get k m'
  end.

Definition Map_values {V} (m : list (string * V)) : list V := map snd m.

(** The handlers close over the execution context they were reflected
    from; the executor keeps the timeout and the registry. *)
Record ToolExecutor : Type := {
  timeout : N;
  tools : list (string * MCPTool);
}.

Definition newToolExecutor (timeout : option N) : ToolExecutor :=
  {| timeout := default 5000%N timeout; tools := [] |}.

Definition addTool (tool : MCPTool) (ex : ToolExecutor) : ToolExecutor :=
  {| timeout := timeout ex; tools := Map_set (tool_name tool) tool (tools ex) |}.

Definition addTools (ts : list MCPTool) (ex : ToolExecutor) : ToolExecutor :=
  foldl (λ ex tool, addTool tool ex) ex ts.

Definition getTools (ex : ToolExecutor) : list MCPTool := Map_values (tools ex).

Definition getTool (name : string) (ex : ToolExecutor) : option MCPTool :=
  Map_get name (tools ex).

Definition timeoutError : Thrown := ErrorObject "Execution timeout".

(** What [String] throws on an object without a prototype. *)
Definition unprintable : Thrown :=
  ErrorObject "Cannot convert object to primitive value".

(** [error instanceof Error ? error.message : String(error)]; the
    conversion can throw. *)
Definition errorMessage (e : Thrown) : Abrupt Thrown string :=
  match e with
  | ErrorObject m => Normal m
  | ForeignError name m =>
      Normal (if JsString.isEmpty name then m
              else if JsString.isEmpty m then name
              else name ++ ": " ++ m)
  | NonError v => Normal (String_of v)
  | Unprintable complaint => Throw complaint
  end.

(** How the promise built by [executeTool] gets settled: by the timer of
    the call, if it is still armed and due first, or by the executor's own
    [resolve] or [reject]; never, when neither happens.  The time of the
    settlement comes with it. *)
Definition settleFirst (timer : option Timer) (own : option (N * Settlement))
    (l : EventLoop) : option (N * Settlement * option Timer) :=
  match timer, own with
  | None, None => None
  | Some tm, None => Some (N.max (now l) (due tm), Rejected timeoutError, Some tm)
  | None, Some (delay, s) => Some (now l + delay, s, None)%N
  | Some tm, Some (delay, s) =>
      if (N.max (now l) (due tm) <? now l + delay)%N
      then Some (N.max (now l) (due tm), Rejected timeoutError, Some tm)
      else Some (now l + delay, s, None)%N
  end.

(** What the executor of the promise does with the outcome of the call:
    [resolve] with a plain output, the fate of a returned promise, [reject]
    with what was thrown. *)
Definition ownSettlement (run : Run) : option (N * Settlement) :=
  match exit run with
  | Returns (Plain output) => Some (0%N, Fulfilled output)
  | Returns (PromiseOf fate) => fate
  | Raises e => Some (0%N, Rejected e)
  end.

(** The two [return] statements: after the [await], and in the [catch]
    clause. *)
Definition successOf (toolName : string) (startTime endTime : N) (v : Value)
    : ExecutionResult :=
  {| success := true; result := Some v; error := None;
     toolName := toolName; executionTime := endTime - startTime |}.

Definition failureOf (toolName : string) (startTime endTime : N) (message : string)
    : ExecutionResult :=
  {| success := false; result := None; error := Some message;
     toolName := toolName; executionTime := endTime - startTime |}.

(** [args] is the argument bag, [{}] when the caller gives none.  The
    timer is cleared as soon as the call of the handler is over, on both
    paths of the inner [try].  In the [catch] clause the message of the
    failure is computed before the clock is read; when that throws, the
    call raises. *)
Definition executeTool (ex : ToolExecutor) (toolName : string)
    (args : list (string * Value)) (l : EventLoop) : Outcome ExecutionResult :=
  match Map_get toolName (tools ex) with
  | None => RaisedOut (ErrorObject ("Tool '" ++ toolName ++ "' not found")) l
  | Some tool =>
      let '(startTime, l0) := Date_now l in
      let '(timer, l1) := setTimeout (timeout ex) l0 in
      let run := apply (handler tool) (Object_values args) in
      let l2 := clearTimeout timer (advance (elapsed run) l1) in
      match settleFirst (findTimer timer l2) (ownSettlement run) l2 with
      | None => Pending l2
      | Some (t, Fulfilled v, fired) =>
          let '(endTime, l3) := Date_now (wake t fired l2) in
          Resolved (successOf toolName startTime endTime v) l3
      | Some (t, Rejected e, fired) =>
          match errorMessage e with
          | Normal message =>
              let '(endTime, l3) := Date_now (wake t fired l2) in
              Resolved (failureOf toolName startTime endTime message) l3
          | Throw complaint => RaisedOut complaint (wake t fired l2)
          end
      end
  end.

End Sandbox.

(** ** The protocol server (server.ts) *)

Module Server.
Import Js Reflection.
Import Sandbox (EventLoop, Outcome, Resolved, RaisedOut, Pending, ToolExecutor).

Record SandboxOptions : Type := {
  opt_port : option N;
  opt_host : option string;
  opt_timeout : option N;
  opt_maxMemory : option N;
}.

Record RequiredOptions : Type := {
  port : N;
  host : string;
  timeout : N;
  maxMemory : N;
}.

(** [n || d] on an optional number: [undefined] and [0] give [d]. *)
Definition numberOr (n : option N) (d : N) : N :=
  match n with
  | Some 0%N | None => d
  | Some k => k
  end.

(** [s || d] on an optional string: [undefined] and [''] give [d]. *)
Definition stringOr (s : option string) (d : string) : string :=
  match s with
  | Some "" | None => d
  | Some t => t
  end.

Record MCPServer : Type := {
  executor : option ToolExecutor;
  options : RequiredOptions;
}.

Definition newMCPServer (o : SandboxOptions) : MCPServer :=
  {| executor := None;
     options := {| port := numberOr (opt_port o) 3000;
                   host := stringOr (opt_host o) "localhost";
                   timeout := numberOr (opt_timeout o) 5000;
                   maxMemory := numberOr (opt_maxMemory o) (64 * 1024 * 1024) |} |}.

Definition setExecutor (ex : ToolExecutor) (srv : MCPServer) : MCPServer :=
  {| executor := Some ex; options := options srv |}.

(** A tool without its handler. *)
Record ToolInfo : Type := {
  info_name : string;
  info_description : string;
  info_inputSchema : InputSchema;
}.

Definition toolInfo (tool : MCPTool) : ToolInfo :=
  {| info_name := tool_name tool;
     info_description := description tool;
     info_inputSchema := inputSchema tool |}.

Record Endpoints : Type := {
  ep_tools : string;
  ep_execute : string;
  ep_sse : string;
  ep_jsonrpc : string;
}.

Record MCPConfig : Type := {
  config_name : string;
  config_version : string;
  config_description : string;
  config_tools : list ToolInfo;
  capabilities : bool * bool * bool;
  endpoints : Endpoints;
}.

Definition url (srv : MCPServer) (path : string) : string :=
  "http://" ++ host (options srv) ++ ":" ++ pretty (port (options srv)) ++ path.

Definition generateMCPConfig (srv : MCPServer) (tools : list MCPTool) : MCPConfig :=
  {| config_name := "mcp-sandbox";
     config_version := "1.0.0";
     config_description := "Dynamically generated MCP server from JavaScript module";
     config_tools := map toolInfo tools;
     capabilities := (true, false, true);
     endpoints := {| ep_tools := url srv "/mcp/tools";
                     ep_execute := url srv "/mcp/execute";
                     ep_sse := url srv "/sse";
                     ep_jsonrpc := url srv "/mcp/jsonrpc" |} |}.

(** *** Messages *)

Inductive Id : Type := IdNumber (n : Z) | IdString (s : string).

Record Params : Type := {
  params_name : option string;
  params_arguments : option (list (string * Value));
}.

Record MCPError : Type := { code : Z; message : string }.

(** The [result] of a response.  The text of a call result is
    [JSON.stringify] of the value kept here, which is a value that can be
    serialised. *)
Inductive Payload : Type :=
| InitializeResult (protocolVersion serverName serverVersion : string)
| EmptyResult
| ToolsResult (tools : list ToolInfo)
| CallResult (content : option Value) (isError : bool)
| PongResult.

Record MCPMessage : Type := {
  id : option Id;
  method : option string;
  params : option Params;
  result : option Payload;
  error : option MCPError;
}.

Definition respond (message : MCPMessage) (payload : Payload) : MCPMessage :=
  {| id := id message; method := None; params := None;
     result := Some payload; error := None |}.

(** The [catch] clause of [handleMCPRequest]. *)
Definition errorResponse (message : MCPMessage) (e : Thrown) : MCPMessage :=
  {| id := id message; method := None; params := None; result := None;
     error := Some {| code := -32603;
                      message := match e with
                                 | ErrorObject m => m
                                 | _ => "Internal error"
                                 end |} |}.

(** A method inside a template literal. *)
Definition showMethod (m : option string) : string :=
  match m with
  | Some s => s
  | None => "undefined"
  end.

(** [this.executor!.f(...)]: a read off [null] throws. *)
Definition executorOf (srv : MCPServer) (member : string) : Thrown + ToolExecutor :=
  match executor srv with
  | Some ex => inr ex
  | None => inl (ErrorObject
      ("Cannot read properties of null (reading '" ++ member ++ "')"))
  end.

Definition isMethod (m : option string) (s : string) : bool :=
  match m with
  | Some t => String.eqb t s
  | None => false
  end.

Definition handleToolsCall (srv : MCPServer) (message : MCPMessage)
    (l : EventLoop) : Outcome MCPMessage :=
  match params message ≫= params_name with
  | None | Some "" =>
      Resolved (errorResponse message (ErrorObject "Tool name is required")) l
  | Some name =>
      match executorOf srv "executeTool" with
      | inl e => Resolved (errorResponse message e) l
      | inr ex =>
          let args := default [] (params message ≫= params_arguments) in
          match Sandbox.executeTool ex name args l with
          | Resolved r l' =>
              if negb (Sandbox.success r) then
                Resolved (errorResponse message
                  (ErrorObject (stringOr (Sandbox.error r) "Tool execution failed"))) l'
              else
                match Sandbox.result r ≫= stringifyError with
                | Some complaint =>
                    Resolved (errorResponse message (ErrorObject complaint)) l'
                | None =>
                    Resolved (respond message (CallResult (Sandbox.result r) false)) l'
                end
          | RaisedOut e l' => Resolved (errorResponse message e) l'
          | Pending l' => Pending l'
          end
      end
  end.

Definition handleMCPRequest (srv : MCPServer) (message : MCPMessage)
    (l : EventLoop) : Outcome MCPMessage :=
  let m := method message in
  if isMethod m "initialize" then
    Resolved (respond message (InitializeResult "2024-11-05" "mcp-sandbox" "1.0.0")) l
  else if isMethod m "notifications/initialized" then
    Resolved (respond message EmptyResult) l
  else if isMethod m "tools/list" then
    match executorOf srv "getTools" with
    | inl e => Resolved (errorResponse message e) l
    | inr ex => Resolved (respond message (ToolsResult (map toolInfo (Sandbox.getTools ex)))) l
    end
  else if isMethod m "tools/call" then handleToolsCall srv message l
  else if isMethod m "ping" then Resolved (respond message PongResult) l
  else
    Resolved (errorResponse message
      (ErrorObject ("Unknown method: " ++ showMethod m))) l.

End Server.

(** ** The facade (index.ts) *)

Module Index.
Import Js Reflection.
Import Sandbox (EventLoop, Outcome, Resolved, RaisedOut, Pending, ToolExecutor).
Import Server (MCPServer, MCPConfig, SandboxOptions).

(** What the facade needs from its host: the value a module exports when
    it is read and run in a fresh context (or what reading or running it
    throws), the outcome of writing a file and of listening on an address
    ([None] is success), and the default path of the configuration file,
    which is [mcp-config.json] in the working directory. *)
Record Host : Type := {
  runModule : string → Thrown + Export;
  writeFile : string → MCPConfig → option string;
  listen : string → N → option string;
  defaultConfigPath : string;
}.

Record MCPSandbox : Type := {
  reflectorTimeout : N;
  executor : option ToolExecutor;
  server : MCPServer;
}.

Definition newMCPSandbox (o : SandboxOptions) : MCPSandbox :=
  {| reflectorTimeout := default 5000%N (Server.opt_timeout o);
     executor := None;
     server := Server.newMCPServer o |}.

Definition noModule : string := "No module loaded. Call loadModule() first.".

(** The [catch] clause of [reflectModule]: the message of the failure,
    [error instanceof Error ? error.message : String(error)], is wrapped;
    when the conversion throws, that error leaves the clause as it is. *)
Definition reflectionFailed {A} (e : Thrown) : Abrupt Thrown A :=
  let? message := Sandbox.errorMessage e in
  Throw (ErrorObject ("Failed to reflect module: " ++ message)).

(** [ModuleReflector.reflectModule]; the error of a stack that overflows
    in the walk is an [Error] of the reflector's realm. *)
Definition reflectModule (h : Host) (modulePath : string)
    : Abrupt Thrown (list MCPTool) :=
  match runModule h modulePath with
  | inl e => reflectionFailed e
  | inr moduleExports =>
      match analyzeExports moduleExports with
      | Normal tools => Normal tools
      | Throw message => reflectionFailed (ErrorObject message)
      end
  end.

Definition loadModule (h : Host) (modulePath : string) (sb : MCPSandbox)
    : Abrupt Thrown (MCPConfig * MCPSandbox) :=
  let? tools := reflectModule h modulePath in
  let ex := Sandbox.addTools tools (Sandbox.newToolExecutor None) in
  let srv := Server.setExecutor ex (server sb) in
  Normal (Server.generateMCPConfig srv tools,
          {| reflectorTimeout := reflectorTimeout sb;
             executor := Some ex;
             server := srv |}).

Definition saveConfig (h : Host) (outputPath : option string) (sb : MCPSandbox)
    : Completion string :=
  match executor sb with
  | None => Throw noModule
  | Some ex =>
      let tools := Sandbox.getTools ex in
      let config := Server.generateMCPConfig (server sb) tools in
      let configPath := Server.stringOr outputPath (defaultConfigPath h) in
      match writeFile h configPath config with
      | Some msg => Throw msg
      | None => Normal configPath
      end
  end.

(** [start] resolves once the server listens. *)
Definition start (h : Host) (sb : MCPSandbox) : Completion unit :=
  match executor sb with
  | None => Throw noModule
  | Some _ =>
      let o := Server.options (server sb) in
      match listen h (Server.host o) (Server.port o) with
      | Some msg => Throw msg
      | None => Normal tt
      end
  end.

Definition executeTool (sb : MCPSandbox) (toolName : string)
    (args : list (string * Value)) (l : EventLoop)
    : Outcome Sandbox.ExecutionResult :=
  match executor sb with
  | None => RaisedOut (ErrorObject noModule) l
  | Some ex => Sandbox.executeTool ex toolName args l
  end.

Definition getTools (sb : MCPSandbox) : list MCPTool :=
  match executor sb with
  | None => []
  | Some ex => Sandbox.getTools ex
  end.

End Index.

(** ** The specification's reading of the heuristics

    Definitions that follow the words of the specification, to be compared
    with the ones above. *)

Module Spec.
Import JsString Regex Js Reflection.

(** The text before the first assignment operator. *)
Fixpoint beforeEquals (s : string) : string :=
  match s with
  | "" => ""
  | String c s' => if eqb_ascii c "=" then "" else String c (beforeEquals s')
  end.

(** The text after the first assignment operator, up to the next one. *)
Fixpoint afterEquals (s : string) : option string :=
  match s with
  | "" => None
  | String c s' => if eqb_ascii c "=" then Some (beforeEquals s') else afterEquals s'
  end.

Definition nameOf (param : string) : string := trim (beforeEquals param).
Definition defaultOf (param : string) : option string := trim <$> afterEquals param.

(** An ordered table of rules; the first rule that applies decides. *)
Definition firstMatch {A} (rules : list ((A → bool) * ParamType)) (x : A)
    : option ParamType :=
  snd <$> List.find (λ rule, fst rule x) rules.

(** The rules on the text read as the default value, as the code has
    them: the rule for numbers asks whether [Number] converts the text. *)
Definition literalRules : list ((string → bool) * ParamType) :=
  [ (λ d, String.eqb d "true" || String.eqb d "false", TBoolean);
    (λ d, negb (Number_isNaN d), TNumber);
    (λ d, startsWith DQUOTE d || startsWith "'" d, TString);
    (startsWith "[", TArray);
    (startsWith "{", TObject) ].

Definition hasAny (patterns : list string) (name : string) : bool :=
  existsb (λ pat, includes pat name) patterns.

Definition nameRules : list ((string → bool) * ParamType) :=
  [ (hasAny ["count"; "num"; "size"], TNumber);
    (hasAny ["flag"; "enable"; "is"], TBoolean);
    (hasAny ["list"; "array"], TArray);
    (hasAny ["config"; "options"], TObject) ].

(** The priority, as the code has it: the text between the first and the
    second assignment operator decides by [literalRules], else the name
    patterns, else [string]. *)
Definition inferByPriority (param : string) : ParamType :=
  match defaultOf param ≫= firstMatch literalRules with
  | Some t => t
  | None => default TString (firstMatch nameRules (toLowerCase (nameOf param)))
  end.

(** *** The rules as the claim words them

    The default value of a token is the text after its first assignment
    operator.  A numeric literal, after the grammar of the language:
    decimal digits with an optional fraction and exponent, or a binary,
    octal or hexadecimal integer; digits may be separated by underscores, an
    integer may carry the suffix of a [BigInt]; a sign may come first. *)

Fixpoint restAfterEquals (s : string) : option string :=
  match s with
  | "" => None
  | String c s' => if eqb_ascii c "=" then Some s' else restAfterEquals s'
  end.

Definition claimedDefault (param : string) : option string :=
  trim <$> restAfterEquals param.

Definition separated (digit : regex) : regex :=
  Cat digit (Star (Cat (Opt (Lit "_")) digit)).

Definition literalExponent : regex :=
  Cat (oneOf "eE") (Cat (Opt (oneOf "+-")) (separated (Class isDigit))).

Definition decimalLiteral : regex :=
  Or (Cat (separated (Class isDigit))
        (Cat (Opt (Cat (Lit ".") (Opt (separated (Class isDigit)))))
           (Opt literalExponent)))
     (Cat (Lit ".") (Cat (separated (Class isDigit)) (Opt literalExponent))).

Definition integerLiteral : regex :=
  Or (Cat (Lit "0")
        (Or (Cat (oneOf "bB") (separated (oneOf "01")))
            (Or (Cat (oneOf "oO") (separated (Class (between 48 55))))
                (Cat (oneOf "xX") (separated (Class isHexDigit))))))
     (separated (Class isDigit)).

Definition numericLiteralGrammar : regex :=
  Cat (Opt (oneOf "+-"))
    (Or (Cat integerLiteral (Lit "n")) (Or decimalLiteral integerLiteral)).

Definition isNumericLiteral (d : string) : bool := matchAll numericLiteralGrammar d.

Definition claimedRules : list ((string → bool) * ParamType) :=
  [ (λ d, String.eqb d "true" || String.eqb d "false", TBoolean);
    (isNumericLiteral, TNumber);
    (λ d, startsWith DQUOTE d || startsWith "'" d, TString);
    (startsWith "[", TArray);
    (startsWith "{", TObject) ].

(** The type the claim gives a token: the literal shape of the default
    value, with numeric literals as numbers; else the name patterns; else
    [string]. *)
Definition inferAsClaimed (param : string) : ParamType :=
  match claimedDefault param ≫= firstMatch claimedRules with
  | Some t => t
  | None => default TString (firstMatch nameRules (toLowerCase (nameOf param)))
  end.

(** The parameter list found in a source text; empty when there is
    none. *)
Definition parameterList (funcStr : string) : string :=
  match search signaturePattern funcStr with
  | Some (Some list) => list
  | _ => ""
  end.

(** The descriptor of a callable registered under [name]. *)
Definition parametersOf (func : Function) : list MCPToolParameter :=
  match extractParameters (toString func) with
  | Normal params => params
  | Throw _ => []
  end.

Definition describe (name : string) (func : Function) : MCPTool :=
  {| tool_name := name;
     description :=
       match extractJSDoc (toString func) with
       | Some d => if isEmpty d then "Execute " ++ name ++ " function" else d
       | None => "Execute " ++ name ++ " function"
       end;
     inputSchema := {| properties := generateParameterSchema (parametersOf func);
                       required := requiredNames (parametersOf func) |};
     handler := func |}.

Definition described (found : list (string * Function)) : list MCPTool :=
  map (λ nf, describe (fst nf) (snd nf)) found.

(** The name of the member [key] of the member [parent]: the two names
    joined with an underscore; the key alone under the empty name. *)
Definition memberName (parent key : string) : string :=
  match parent with
  | "" => key
  | _ => parent ++ "_" ++ key
  end.

(** The callables found in a member reached under [name]: the member
    itself when callable; the members of a nested object, each under its
    key joined to [name]; nothing in a scalar or an array. *)
Fixpoint discovered (name : string) (value : Export) : list (string * Function) :=
  match value with
  | XFunction func => [(name, func)]
  | XObject entries =>
      (fix members (es : list (string * Export)) : list (string * Function) :=
         match es with
         | [] => []
         | (key, v) :: rest => (discovered (memberName name key) v ++ members rest)%list
         end) entries
  | _ => []
  end.

Definition discoveredIn (entries : list (string * Export)) : list (string * Function) :=
  flat_map (λ kv, discovered (fst kv) (snd kv)) entries.

(** The members of an array, each under its index, from [i] on. *)
Fixpoint discoveredFrom (i : nat) (elems : list Export) : list (string * Function) :=
  match elems with
  | [] => []
  | e :: rest => (discovered (pretty i) e ++ discoveredFrom (S i) rest)%list
  end.

(** The tools of a module: a callable export is the tool [default]; an
    exported object contributes its members under their keys, an exported
    array its members under their indices; any other export, none. *)
Definition discoveredTools (exports : Export) : list (string * Function) :=
  match exports with
  | XFunction func => [("default", func)]
  | XObject entries => discoveredIn entries
  | XArray elems => discoveredFrom 0 elems
  | _ => []
  end.

(** The walk from a member comes back to an object that encloses it. *)
Fixpoint reaches (value : Export) : bool :=
  match value with
  | XAncestor => true
  | XObject entries =>
      (fix some (es : list (string * Export)) : bool :=
         match es with
         | [] => false
         | (_, v) :: rest => reaches v || some rest
         end) entries
  | _ => false
  end.

(** The graph of the exports reaches itself somewhere the walk goes. *)
Definition reachesItself (exports : Export) : bool :=
  match exports with
  | XObject entries => existsb (λ kv, reaches (snd kv)) entries
  | XArray elems => existsb reaches elems
  | _ => false
  end.

(** The schema entry written for one parameter. *)
Definition entryOf (p : MCPToolParameter) : SchemaEntry :=
  {| entry_type := type p;
     entry_description := "Parameter: " ++ name p;
     items := if decide (type p = TArray)
              then Some {| items_type := TString |} else None |}.



(** The positional arguments in the declared parameter order. *)
Definition positionalByDeclaration (params : list MCPToolParameter)
    (args : list (string * Value)) : list Value :=
  map (λ p, default VUndefined (Sandbox.Map_get (name p) args)) params.

(** The event loop once the synchronous part of a call is over: the clock
    was read, the timer armed, the handler ran and the timer was cleared. *)
Definition afterCall (ex : Sandbox.ToolExecutor) (run : Run) (l : Sandbox.EventLoop)
    : Sandbox.EventLoop :=
  Sandbox.clearTimeout (Sandbox.nextTimer l)
    (Sandbox.advance (elapsed run)
       (snd (Sandbox.setTimeout (Sandbox.timeout ex) (snd (Sandbox.Date_now l))))).

(** The executor in which the handler of [toolName] behaves, whatever it
    is called with, as the handler of [tool] does on [xs]. *)
Definition handing (xs : list Value) (toolName : string) (tool : MCPTool)
    (ex : Sandbox.ToolExecutor) : Sandbox.ToolExecutor :=
  {| Sandbox.timeout := Sandbox.timeout ex;
     Sandbox.tools :=
       Sandbox.Map_set toolName
         {| tool_name := tool_name tool;
            description := description tool;
            inputSchema := inputSchema tool;
            handler := {| toString := toString (handler tool);
                          apply := λ _, apply (handler tool) xs |} |}
         (Sandbox.tools ex) |}.

(** [executeTool] on the bag [args] invokes the handler with the
    positional arguments [xs]: nothing changes when the handler is handed
    [xs] directly. *)
Definition InvokesWith (ex : Sandbox.ToolExecutor) (toolName : string)
    (args : list (string * Value)) (xs : list Value) : Prop :=
  ∀ tool l, Sandbox.getTool toolName ex = Some tool →
    Sandbox.executeTool ex toolName args l
    = Sandbox.executeTool (handing xs toolName tool ex) toolName args l.

(** The handler receives the values in the declared parameter order. *)
Definition InvokesInDeclaredOrder (ex : Sandbox.ToolExecutor) (toolName : string)
    (args : list (string * Value)) : Prop :=
  ∀ tool, Sandbox.getTool toolName ex = Some tool →
    InvokesWith ex toolName args
      (positionalByDeclaration (parametersOf (handler tool)) args).

(** A call fails with [e]: its handler throws [e], or returns a promise
    that rejects with [e]. *)
Definition FailsWith (run : Run) (e : Thrown) : Prop :=
  exit run = Raises e ∨ ∃ delay, exit run = Returns (PromiseOf (Some (delay, Rejected e))).

(** The message a failure is reported with: the message of an [Error] of
    the executor's realm; what [String] makes of anything else, which for an
    error of another realm is its name, a colon and its message (the name
    alone, or the message alone, when the other one is empty).  A value on
    which [String] throws has none. *)
Inductive Reported : Thrown → string → Prop :=
| reported_error (message : string) :
    Reported (ErrorObject message) message
| reported_foreign (name message : string) :
    name ≠ "" → message ≠ "" →
    Reported (ForeignError name message) (name ++ ": " ++ message)
| reported_unnamed (message : string) :
    Reported (ForeignError "" message) message
| reported_silent (name : string) :
    Reported (ForeignError name "") name
| reported_value (v : Value) :
    Reported (NonError v) (String_of v).


(** How a call that began at [startTime] ends once its promise has
    settled as [s] at [endTime], the event loop being [l] by then. *)
Definition settledAs (toolName : string) (startTime endTime : N) (s : Settlement)
    (l : Sandbox.EventLoop) : Sandbox.Outcome Sandbox.ExecutionResult :=
  match s with
  | Fulfilled v =>
      Sandbox.Resolved (Sandbox.successOf toolName startTime endTime v)
        (snd (Sandbox.Date_now l))
  | Rejected e =>
      match Sandbox.errorMessage e with
      | Normal message =>
          Sandbox.Resolved (Sandbox.failureOf toolName startTime endTime message)
            (snd (Sandbox.Date_now l))
      | Throw complaint => Sandbox.RaisedOut complaint l
      end
  end.

(** The methods of the dispatch table. *)
Definition knownMethods : list string :=
  ["initialize"; "notifications/initialized"; "tools/list"; "tools/call"; "ping"].

(** The [items] field a parameter of type [t] is expected to have. *)
Definition expectedItems (t : ParamType) : option Items :=
  if decide (t = TArray) then Some {| items_type := TString |} else None.

Definition itemsOf (schema : Obj SchemaEntry) (n : string) : option Items :=
  schema !! n ≫= items.

(** Every parameter finds, under its name, an entry whose [items] follows
    its own type. *)
Definition ItemsFollowType (params : list MCPToolParameter) : Prop :=
  ∀ p, p ∈ params →
    itemsOf (generateParameterSchema params) (name p) = expectedItems (type p).

End Spec.

(** ** A module to run

    Eight exported functions: a subtraction, an asynchronous function that
    takes ten seconds, a synchronous one that takes eight, one whose promise
    never settles, one that throws an [Error], one whose promise rejects
    with a number, one that throws an object without a prototype and one
    that returns a [BigInt]; the executor has the default timeout of five
    seconds. *)

Module Scenario.
Import Js Reflection Sandbox.

Definition returning (ms : N) (output : Output) : Run :=
  {| elapsed := ms; exit := Returns output |}.

(** Operands that are missing give [NaN], which is shown as [null]. *)
Definition subtract : Function :=
  {| toString := "function subtract(a, b) { return a - b; }";
     apply := λ xs,
       match xs with
       | VNum a :: VNum b :: _ => returning 0 (Plain (VNum (a - b)))
       | _ => returning 0 (Plain VNull)
       end |}.

Definition slow : Function :=
  {| toString := "async function slow() { await sleep(10000); return 1; }";
     apply := λ _, returning 0 (PromiseOf (Some (10000%N, Fulfilled (VNum 1)))) |}.

Definition spin : Function :=
  {| toString := "function spin() { const t = Date.now(); while (Date.now() - t < 8000); return 1; }";
     apply := λ _, returning 8000 (Plain (VNum 1)) |}.

Definition stuck : Function :=
  {| toString := "function stuck() { return new Promise(() => {}); }";
     apply := λ _, returning 0 (PromiseOf None) |}.

(** The error is made by the module, in the realm of the module. *)
Definition fail : Function :=
  {| toString := "function fail() { throw new Error('Radius cannot be negative'); }";
     apply := λ _, {| elapsed := 0;
                      exit := Raises (ForeignError "Error" "Radius cannot be negative") |} |}.

Definition bare : Function :=
  {| toString := "function bare() { throw Object.create(null); }";
     apply := λ _, {| elapsed := 0;
                      exit := Raises (Unprintable Sandbox.unprintable) |} |}.

Definition big : Function :=
  {| toString := "function big() { return 10n; }";
     apply := λ _, returning 0 (Plain (VBigInt 10)) |}.

Definition refuse : Function :=
  {| toString := "async function refuse() { await sleep(10); throw 42; }";
     apply := λ _, returning 0 (PromiseOf (Some (10%N, Rejected (NonError (VNum 42))))) |}.

Definition moduleExports : Export :=
  XObject [ ("subtract", XFunction subtract); ("slow", XFunction slow);
            ("spin", XFunction spin); ("stuck", XFunction stuck);
            ("fail", XFunction fail); ("refuse", XFunction refuse);
            ("bare", XFunction bare); ("big", XFunction big) ].

Definition executor : ToolExecutor :=
  match analyzeExports moduleExports with
  | Normal tools => addTools tools (newToolExecutor None)
  | Throw _ => newToolExecutor None
  end.

Definition idle : EventLoop :=
  {| now := 1000; timers := []; nextTimer := 0; clockReads := 0 |}.

End Scenario.

(** ** The push channel (server.ts)

    The table of connected clients, the messages sent to them and the
    periodic sweep of stale clients. *)

Module Push.
Import Js.
Import Sandbox (Map_get, Map_set).

(** [Map.delete] *)
Fixpoint Map_delete {V} (k : string) (m : list (string * V)) : list (string * V) :=
  match m with
  | [] => []
  | (k', v) :: m' =>
      if String.eqb k' k then m' else (k', v) :: Map_delete k m'
  end.

(** The messages of type [D] on which [JSON.stringify] throws. *)
Class Serialisable (D : Type) := stringifyThrows : D → bool.

(** A text is always turned into JSON. *)
Global Instance string_serialisable : Serialisable string := λ _, false.

Section Clients.
Context {D : Type} `{!Serialisable D}.

(** What was written to a stream: a comment line, or a [data:] line that
    carries the JSON text of a message. *)
Inductive Frame : Type :=
| CommentLine (text : string)
| DataLine (data : D).

(** The response of a client: whether the stream is destroyed, whether a
    write to it throws, and what was written so far. *)
Record Response : Type := {
  destroyed : bool;
  writeThrows : bool;
  written : list Frame;
}.

Record SSEClient : Type := {
  client_id : string;
  response : Response;
  lastPing : N;
}.

Definition write (frame : Frame) (r : Response) : Response :=
  {| destroyed := destroyed r; writeThrows := writeThrows r;
     written := (written r ++ [frame])%list |}.

(** The registration of a client by the [/sse] route, at time [now]. *)
Definition connect (now : N) (clientId : string) (r : Response)
    (clients : list (string * SSEClient)) : list (string * SSEClient) :=
  Map_set clientId
    {| client_id := clientId;
       response := write (CommentLine "connected") r;
       lastPing := now |} clients.

(** [sendSSEMessage] at time [now]: the message is turned into JSON and
    written inside one [try]; when either throws, the client is removed. *)
Definition sendSSEMessage (now : N) (clientId : string) (data : D)
    (clients : list (string * SSEClient)) : list (string * SSEClient) :=
  match Map_get clientId clients with
  | Some client =>
      if destroyed (response client) then clients
      else if stringifyThrows data || writeThrows (response client)
      then Map_delete clientId clients
      else Map_set clientId
             {| client_id := client_id client;
                response := write (DataLine data) (response client);
                lastPing := now |} clients
  | None => clients
  end.

(** [broadcastSSEMessage]: the loop over the keys of the table. *)
Definition broadcastSSEMessage (now : N) (data : D)
    (clients : list (string * SSEClient)) : list (string * SSEClient) :=
  foldl (λ cs clientId, sendSSEMessage now clientId data cs) clients (map fst clients).

(** One tick of the heartbeat of a client; the last activity is left as
    it is. *)
Definition heartbeat (clientId : string) (clients : list (string * SSEClient))
    : list (string * SSEClient) :=
  match Map_get clientId clients with
  | Some client =>
      if destroyed (response client) then clients
      else if writeThrows (response client) then Map_delete clientId clients
      else Map_set clientId
             {| client_id := client_id client;
                response := write (CommentLine "heartbeat") (response client);
                lastPing := lastPing client |} clients
  | None => clients
  end.

Definition isStale (now : N) (client : SSEClient) : bool :=
  (60000 <? now - lastPing client)%N.

(** One tick of the interval of [startPingInterval], at time [now]: the
    table afterwards, and the clients whose response was ended. *)
Definition pingTick (now : N) (clients : list (string * SSEClient))
    : list (string * SSEClient) * list string :=
  foldl (λ st entry,
           if isStale now (snd entry)
           then (Map_delete (fst entry) (fst st), (snd st ++ [fst entry])%list)
           else st)
        (clients, []) clients.

End Clients.

Arguments Frame D : clear implicits.
Arguments Response D : clear implicits.
Arguments SSEClient D : clear implicits.
Arguments connect {D} now clientId r clients.
Arguments heartbeat {D} clientId clients.
Arguments isStale {D} now client.
Arguments pingTick {D} now clients.
Arguments write {D} frame r.

End Push.

(** ** The routes (server.ts) *)

Module Routes.
Import Js Reflection.
Import Sandbox (EventLoop, Outcome, Resolved, RaisedOut, Pending, ExecutionResult, now).
Import Server Push.

(** The [result] field of a [notifications/tool_result] message. *)
Inductive Notified : Type :=
| PayloadOf (p : option Payload)
| ExecutionOf (r : ExecutionResult).

Record ToolResult : Type := {
  note_toolName : option string;
  note_arguments : option (list (string * Value));
  note_result : Notified;
  note_timestamp : N;
}.

(** [JSON.stringify] of a notification throws when it throws on one of the
    arguments or on the value a tool returned; the payload of a response
    holds that value as a text already. *)
Global Instance ToolResult_serialisable : Serialisable ToolResult := λ data,
  bool_decide (is_Some (note_arguments data ≫= stringifyErrorOfBag))
  || match note_result data with
     | ExecutionOf r => bool_decide (is_Some (Sandbox.result r ≫= stringifyError))
     | PayloadOf _ => false
     end.

Record Reply (B : Type) : Type := { status : N; body : B }.
Arguments status {B} r.
Arguments body {B} r.

(** What a route does with a request: it replies, and leaves the table of
    clients in some state; or it never replies. *)
Inductive RouteOutcome (B : Type) : Type :=
| Replied (reply : Reply B) (clients : list (string * SSEClient ToolResult))
| Unanswered.
Arguments Replied {B} reply clients.
Arguments Unanswered {B}.

(** [id || null] *)
Definition idOrNull (i : option Id) : option Id :=
  match i with
  | Some (IdNumber 0) | Some (IdString "") | None => None
  | Some j => Some j
  end.

(** [POST /mcp/jsonrpc] *)
Definition postJsonRpc (srv : MCPServer) (message : MCPMessage)
    (clients : list (string * SSEClient ToolResult)) (l : EventLoop)
    : RouteOutcome MCPMessage :=
  match handleMCPRequest srv message l with
  | Resolved response l' =>
      let clients' :=
        if isMethod (method message) "tools/call" then
          broadcastSSEMessage (now l')
            {| note_toolName := params message ≫= params_name;
               note_arguments := params message ≫= params_arguments;
               note_result := PayloadOf (result response);
               note_timestamp := now l' |} clients
        else clients in
      Replied {| status := 200; body := response |} clients'
  | RaisedOut e l' =>
      Replied {| status := 500;
                 body := {| id := idOrNull (id message); method := None;
                            params := None; result := None;
                            error := Some {| code := -32603;
                                             message := match e with
                                                        | ErrorObject m => m
                                                        | _ => "Internal error"
                                                        end |} |} |} clients
  | Pending _ => Unanswered
  end.

Inductive ExecuteBody : Type :=
| ExecuteResult (r : ExecutionResult)
| ExecuteFailure (error toolName : string).

(** The [catch] clause of [/execute/:toolName]; the route does not answer
    when the clause itself throws. *)
Definition executeFailed (e : Thrown) (toolName : string)
    (clients : list (string * SSEClient ToolResult)) : RouteOutcome ExecuteBody :=
  match Sandbox.errorMessage e with
  | Normal message =>
      Replied {| status := 500; body := ExecuteFailure message toolName |} clients
  | Throw _ => Unanswered
  end.

(** [POST /execute/:toolName]; [args] is [req.body.args].  The clients are
    notified first; then [res.json] turns the result into JSON, still
    inside the [try]. *)
Definition postExecute (srv : MCPServer) (toolName : string)
    (args : option (list (string * Value)))
    (clients : list (string * SSEClient ToolResult)) (l : EventLoop)
    : RouteOutcome ExecuteBody :=
  let args := default [] args in
  match executorOf srv "executeTool" with
  | inl e => executeFailed e toolName clients
  | inr ex =>
      match Sandbox.executeTool ex toolName args l with
      | Resolved r l' =>
          let clients' :=
            broadcastSSEMessage (now l')
              {| note_toolName := Some toolName;
                 note_arguments := Some args;
                 note_result := ExecutionOf r;
                 note_timestamp := now l' |} clients in
          match Sandbox.result r ≫= stringifyError with
          | Some complaint => executeFailed (ErrorObject complaint) toolName clients'
          | None => Replied {| status := 200; body := ExecuteResult r |} clients'
          end
      | RaisedOut e l' => executeFailed e toolName clients
      | Pending _ => Unanswered
      end
  end.

(** The body of a reply of [/mcp/execute]; the text of the content is
    [JSON.stringify] of the value kept here. *)
Inductive McpExecuteBody : Type :=
| McpContent (content : option Value) (isError : bool)
| McpFailure (code : Z) (message : string).

(** The [catch] clause of [/mcp/execute]. *)
Definition mcpExecuteFailed (e : Thrown)
    (clients : list (string * SSEClient ToolResult)) : RouteOutcome McpExecuteBody :=
  match Sandbox.errorMessage e with
  | Normal message =>
      Replied {| status := 500; body := McpFailure (-32603) message |} clients
  | Throw _ => Unanswered
  end.

(** [POST /mcp/execute]; [toolName] and [args] are read off the body.  No
    key of the registry is [undefined], so that a missing [toolName] is
    never found.  The clients are notified first; then the value is turned
    into the text of the content, still inside the [try]. *)
Definition postMcpExecute (srv : MCPServer) (toolName : option string)
    (args : option (list (string * Value)))
    (clients : list (string * SSEClient ToolResult)) (l : EventLoop)
    : RouteOutcome McpExecuteBody :=
  match executorOf srv "executeTool" with
  | inl e => mcpExecuteFailed e clients
  | inr ex =>
      let outcome :=
        match toolName with
        | Some n => Sandbox.executeTool ex n (default [] args) l
        | None => RaisedOut (ErrorObject "Tool 'undefined' not found") l
        end in
      match outcome with
      | Resolved r l' =>
          let clients' :=
            broadcastSSEMessage (now l')
              {| note_toolName := toolName;
                 note_arguments := args;
                 note_result := ExecutionOf r;
                 note_timestamp := now l' |} clients in
          match Sandbox.result r ≫= stringifyError with
          | Some complaint => mcpExecuteFailed (ErrorObject complaint) clients'
          | None =>
              Replied {| status := 200;
                         body := McpContent (Sandbox.result r)
                                   (negb (Sandbox.success r)) |} clients'
          end
      | RaisedOut e l' => mcpExecuteFailed e clients
      | Pending _ => Unanswered
      end
  end.

End Routes.

(** ** Notions used in the statements below *)

Module Notions.
Import Js Reflection Push.

(** The keys of a [Map] are pairwise distinct. *)
Definition UniqueKeys {V} (m : list (string * V)) : Prop := NoDup (map fst m).

(** Every armed timer was handed out by [setTimeout]. *)
Definition WellFormedLoop (l : Sandbox.EventLoop) : Prop :=
  Forall (λ t, (Sandbox.timer_id t < Sandbox.nextTimer l)%nat) (Sandbox.timers l).

(** What a message sent at [now] does to one client: nothing when the
    stream is destroyed; the client is dropped when the message is not
    turned into JSON or the write throws; otherwise the message is written
    and the last activity is [now]. *)
Definition deliver {D} `{!Serialisable D} (now : N) (data : D)
    (entry : string * SSEClient D) : option (string * SSEClient D) :=
  let client := snd entry in
  if destroyed (response client) then Some entry
  else if stringifyThrows data || writeThrows (response client) then None
  else Some (fst entry,
             {| client_id := client_id client;
                response := write (DataLine data) (response client);
                lastPing := now |}).

(** A character occurs in a string. *)
Fixpoint occurs (c : ascii) (s : string) : bool :=
  match s with
  | "" => false
  | String c' s' => JsString.eqb_ascii c' c || occurs c s'
  end.

End Notions.

(** * Properties *)

(** ** Strings *)

Module JsStringFacts.
Import JsString.

Lemma eqb_ascii_sym (a b : ascii) : eqb_ascii a b = eqb_ascii b a.
Proof. apply Ascii.eqb_sym. Qed.

Lemma includes_char_cons (sep c : ascii) (s : string) :
  includes (String sep "") (String c s)
  = eqb_ascii sep c || includes (String sep "") s.
Proof. simpl. by rewrite andb_true_r. Qed.

Lemma split_nonempty (sep : ascii) (s : string) : split sep s ≠ [].
Proof.
  induction s as [|c s IH]; simpl; [done|].
  destruct (eqb_ascii c sep); [done|].
  by destruct (split sep s).
Qed.

Lemma split_head (sep : ascii) (s : string) : ∃ h t, split sep s = h :: t.
Proof.
  pose proof (split_nonempty sep s) as H.
  destruct (split sep s) as [|h t]; [done|by eauto].
Qed.

Lemma length_consHead (c : ascii) (parts : list string) :
  parts ≠ [] → List.length (consHead c parts) = List.length parts.
Proof. by destruct parts. Qed.

(** A string that contains the separator splits into two parts at least. *)
Lemma split_length_includes (sep : ascii) (s : string) :
  includes (String sep "") s = true → (2 ≤ List.length (split sep s))%nat.
Proof.
  induction s as [|c s IH]; [done|].
  rewrite includes_char_cons, eqb_ascii_sym. simpl.
  destruct (eqb_ascii c sep); simpl.
  - intros _. destruct (split_head sep s) as (h & t & ->). simpl. lia.
  - intros H. rewrite length_consHead by apply split_nonempty. by apply IH.
Qed.

Lemma lookup_consHead_S (c : ascii) (parts : list string) (i : nat) :
  parts ≠ [] → consHead c parts !! S i = parts !! S i.
Proof. by destruct parts. Qed.

End JsStringFacts.

(** ** Signature inference *)

Module InferenceFacts.
Import JsString Regex Js Reflection Spec JsStringFacts.

Lemma split_lookup_0 (s : string) : split "=" s !! 0%nat = Some (beforeEquals s).
Proof.
  induction s as [|c s IH]; simpl; [done|].
  destruct (eqb_ascii c "="); [done|].
  destruct (split "=" s) as [|h t]; simpl in *; [done|].
  by simplify_eq.
Qed.

Lemma split_lookup_1 (s : string) : split "=" s !! 1%nat = afterEquals s.
Proof.
  induction s as [|c s IH]; simpl; [done|].
  destruct (eqb_ascii c "=").
  - simpl. apply split_lookup_0.
  - rewrite lookup_consHead_S by apply split_nonempty. done.
Qed.

Lemma includes_afterEquals (s : string) :
  includes "=" s = match afterEquals s with Some _ => true | None => false end.
Proof.
  induction s as [|c s IH]; [done|].
  rewrite includes_char_cons, eqb_ascii_sym. simpl.
  by destruct (eqb_ascii c "=").
Qed.

Lemma typeOfDefault_firstMatch (d : string) :
  typeOfDefault d = firstMatch literalRules d.
Proof.
  unfold typeOfDefault, firstMatch, literalRules. simpl.
  repeat (case_match; simpl; try done).
Qed.

Lemma typeOfName_firstMatch (n : string) :
  typeOfName n = default TString (firstMatch nameRules n).
Proof.
  unfold typeOfName, firstMatch, nameRules, hasAny. simpl.
  rewrite !orb_false_r, !orb_assoc.
  repeat (case_match; simpl; try done).
Qed.

(** The source function computes the priority table and never throws. *)
Lemma inferParameterType_eq (param : string) :
  inferParameterType param = Normal (inferByPriority param).
Proof.
  unfold inferParameterType, inferByPriority, defaultOf, nameOf, trimAt.
  rewrite includes_afterEquals, split_lookup_1, split_lookup_0.
  destruct (afterEquals param) as [d|]; simpl.
  - rewrite typeOfDefault_firstMatch.
    destruct (firstMatch literalRules (trim d)); simpl; [done|].
    by rewrite typeOfName_firstMatch.
  - by rewrite typeOfName_firstMatch.
Qed.

Lemma describeParameter_normal (param : string) :
  ∃ p, describeParameter param = Normal p.
Proof.
  unfold describeParameter.
  destruct (split_head "=" param) as (h & t & ->). simpl.
  rewrite inferParameterType_eq. simpl. eauto.
Qed.

Lemma cmap_normal {A B} (f : A → Completion B) (l : list A) :
  (∀ a, ∃ b, f a = Normal b) → ∃ bs, cmap f l = Normal bs.
Proof.
  intros Hf. induction l as [|a l [bs IH]]; simpl; [by eauto|].
  destruct (Hf a) as [b ->]. simpl. rewrite IH. simpl. eauto.
Qed.

Lemma extractParameters_normal (funcStr : string) :
  ∃ params, extractParameters funcStr = Normal params.
Proof.
  unfold extractParameters.
  destruct (search signaturePattern funcStr) as [[list|]|]; [|by eauto..].
  destruct (isEmpty list); [by eauto|].
  apply cmap_normal, describeParameter_normal.
Qed.

Lemma extractParameters_parametersOf (func : Function) :
  extractParameters (toString func) = Normal (parametersOf func).
Proof.
  unfold parametersOf.
  by destruct (extractParameters_normal (toString func)) as [params ->].
Qed.

Lemma extractParameters_no_list (funcStr : string) :
  parameterList funcStr = "" → extractParameters funcStr = Normal [].
Proof.
  unfold parameterList, extractParameters.
  destruct (search signaturePattern funcStr) as [[list|]|]; [|done..].
  by intros ->.
Qed.

Lemma analyzeFunction_describe (name : string) (func : Function) :
  analyzeFunction name func = Normal (describe name func).
Proof.
  unfold analyzeFunction. by rewrite extractParameters_parametersOf.
Qed.

(** The literal shape of a default value goes before the name; a default of
    no listed shape leaves the decision to the name; the name [list]
    contains [is]. *)
Example inferParameterType_samples :
  map inferParameterType
    ["count = true"; "isEnabled = 5"; "label = 'x'"; "sizes = [1"; "flag = {}";
     "count = limit"; "list"; "itemsArray"; "options"; "radius"]
  = map Normal
    [TBoolean; TNumber; TString; TArray; TObject;
     TNumber; TBoolean; TArray; TObject; TString].
Proof. vm_compute. reflexivity. Qed.

(** A parameter with a numeric default is optional and of type [number]. *)
Example extractParameters_circleArea :
  extractParameters "function circleArea(radius = 1) { return Math.PI * radius * radius; }"
  = Normal [ {| name := "radius"; hasDefault := true; type := TNumber |} ].
Proof. vm_compute. reflexivity. Qed.

Lemma firstMatch_claimedRules (d : string) :
  isNumericLiteral d = negb (Number_isNaN d) →
  firstMatch claimedRules d = firstMatch literalRules d.
Proof.
  intros Hd. unfold firstMatch, claimedRules, literalRules.
  cbn [List.find fst]. rewrite Hd.
  destruct (String.eqb d "true" || String.eqb d "false"); [done|].
  destruct (negb (Number_isNaN d)); [done|].
  destruct (startsWith DQUOTE d || startsWith "'" d); [done|].
  destruct (startsWith "[" d); [done|].
  by destruct (startsWith "{" d).
Qed.

(** C5, as stated, fails.  The code takes for a number what [Number]
    converts, and reads the default value up to the next assignment
    operator: a literal with a separator is no number for it, and the type
    of [n = 1_000] comes from the name; [Infinity] and the empty text are
    numbers for it though they are no literals; and in [x = 1 == y] it
    takes the default value for the literal 1. *)
Lemma numeric_literal_counterexample :
  (inferParameterType "n = 1_000" = Normal TString
   ∧ inferAsClaimed "n = 1_000" = TNumber)
  ∧ (inferParameterType "limit = Infinity" = Normal TNumber
     ∧ inferAsClaimed "limit = Infinity" = TString)
  ∧ (inferParameterType "x =" = Normal TNumber
     ∧ inferAsClaimed "x =" = TString)
  ∧ (inferParameterType "x == 1" = Normal TNumber
     ∧ inferAsClaimed "x == 1" = TString)
  ∧ (inferParameterType "x = 1 == y" = Normal TNumber
     ∧ inferAsClaimed "x = 1 == y" = TString).
Proof. repeat split; vm_compute; reflexivity. Qed.

(** C5, as the code has it.  The inferred type of a parameter token
    follows this priority: when the token holds an assignment operator, the
    first rule that applies to the text between the first operator and the
    next one decides (the text [true] or [false]; a text that [Number]
    converts; an opening quote; an opening square bracket; an opening
    brace); otherwise, or when none applies, the first name rule that
    applies to the lower-cased name decides (count/num/size,
    flag/enable/is, list/array, config/options); otherwise the type is
    [string].  This is the type the claim gives whenever the token holds one
    assignment operator at most and [Number] converts its default value
    exactly when that is a numeric literal. *)
Theorem inferParameterType_priority (param : string) :
  inferParameterType param = Normal (inferByPriority param)
  ∧ (claimedDefault param = defaultOf param →
     (∀ d, defaultOf param = Some d →
           isNumericLiteral d = negb (Number_isNaN d)) →
     inferParameterType param = Normal (inferAsClaimed param)).
Proof.
  split; [apply inferParameterType_eq|].
  intros Hdefault Hnumber. rewrite inferParameterType_eq. f_equal.
  unfold inferByPriority, inferAsClaimed. rewrite Hdefault.
  destruct (defaultOf param) as [d|]; [|done]. simpl.
  by rewrite firstMatch_claimedRules by (by apply Hnumber).
Qed.

Lemma inferParameterType_priority_witness :
  inferParameterType "count = 10" = Normal (inferAsClaimed "count = 10")
  ∧ inferAsClaimed "count = 10" = TNumber
  ∧ inferAsClaimed "tags = []" = TArray
  ∧ inferParameterType "tags = []" = Normal (inferAsClaimed "tags = []").
Proof.
  split_and!.
  - apply (proj2 (inferParameterType_priority "count = 10")).
    + vm_compute. reflexivity.
    + intros d [= <-]. vm_compute. reflexivity.
  - vm_compute. reflexivity.
  - vm_compute. reflexivity.
  - apply (proj2 (inferParameterType_priority "tags = []")).
    + vm_compute. reflexivity.
    + intros d [= <-]. vm_compute. reflexivity.
Defined.

(** C8. Signature inference is total: on every source text
    [extractParameters] returns a sequence of descriptors and does not
    throw; when no parameter list is found, or the list is empty, the
    sequence is empty, and the callable gets a descriptor without
    properties and without required names. *)
Theorem extractParameters_total (funcStr : string) :
  ∃ params,
    extractParameters funcStr = Normal params
    ∧ (parameterList funcStr = "" → params = [])
    ∧ (params = [] → ∀ toolName func, toString func = funcStr →
         ∃ tool, analyzeFunction toolName func = Normal tool
                 ∧ properties (inputSchema tool) = ∅
                 ∧ required (inputSchema tool) = []).
Proof.
  destruct (extractParameters_normal funcStr) as [params Hp].
  exists params. split; [done|]. split.
  - intros Hl. rewrite (extractParameters_no_list _ Hl) in Hp. by simplify_eq.
  - intros -> toolName func <-. exists (describe toolName func).
    split; [apply analyzeFunction_describe|].
    unfold describe, parametersOf. rewrite Hp. done.
Qed.

Lemma extractParameters_total_witness :
  ∃ params,
    extractParameters "(a, b) => a + b" = Normal params ∧ params = []
    ∧ ∃ tool,
        analyzeFunction "sum" {| toString := "(a, b) => a + b";
                                 apply := λ _, {| elapsed := 0;
                                                  exit := Returns (Plain VNull) |} |}
        = Normal tool
        ∧ properties (inputSchema tool) = ∅ ∧ required (inputSchema tool) = [].
Proof.
  destruct (extractParameters_total "(a, b) => a + b") as (params & Hp & Hl & Hz).
  assert (params = []) as Hnil by (apply Hl; vm_compute; reflexivity).
  exists params. split; [exact Hp|]. split; [exact Hnil|].
  apply (Hz Hnil "sum"). reflexivity.
Defined.

End InferenceFacts.

(** ** Schema generation *)

Module SchemaFacts.
Import JsString Js Reflection Spec.

Section ObjFacts.
Context {V : Type}.
Implicit Types (o : Obj V) (k : string).

Lemma Obj_lookup_insert_eq o k (v : V) : <[k := v]> o !! k = Some v.
Proof.
  unfold lookup, insert, Obj_lookup, Obj_insert.
  destruct (decide (k = PROTO)); simpl; [done|]. apply lookup_insert_eq.
Qed.

Lemma Obj_lookup_insert_ne o k k' (v : V) : k ≠ k' → <[k := v]> o !! k' = o !! k'.
Proof.
  intros Hne. unfold lookup, insert, Obj_lookup, Obj_insert.
  destruct (decide (k' = PROTO)), (decide (k = PROTO)); simpl; try done.
  - congruence.
  - by apply lookup_insert_ne.
Qed.

Lemma Obj_lookup_alter_eq (f : V → V) o k : alter f k o !! k = f <$> o !! k.
Proof.
  unfold lookup, alter, Obj_lookup, Obj_alter.
  destruct (decide (k = PROTO)); simpl; [done|]. apply lookup_alter_eq.
Qed.

Lemma Obj_lookup_alter_ne (f : V → V) o k k' : k ≠ k' → alter f k o !! k' = o !! k'.
Proof.
  intros Hne. unfold lookup, alter, Obj_lookup, Obj_alter.
  destruct (decide (k' = PROTO)), (decide (k = PROTO)); simpl; try done.
  - congruence.
  - by apply lookup_alter_ne.
Qed.


(** [__proto__] is never a key. *)
Lemma Object_keys_insert_PROTO o (v : V) : Object_keys (<[PROTO := v]> o) = Object_keys o.
Proof. done. Qed.

Lemma Object_keys_alter (f : V → V) o k : Object_keys (alter f k o) = Object_keys o.
Proof.
  unfold Object_keys, alter, Obj_alter.
  destruct (decide (k = PROTO)); simpl; [done|].
  apply set_eq. intros x. rewrite !elem_of_dom.
  destruct (decide (x = k)) as [->|Hne].
  - rewrite lookup_alter_eq. by rewrite fmap_is_Some.
  - by rewrite lookup_alter_ne.
Qed.

End ObjFacts.

Lemma lookup_addParameter_eq (schema : Obj SchemaEntry) (p : MCPToolParameter) :
  addParameter schema p !! name p = Some (entryOf p).
Proof.
  unfold addParameter, entryOf. case_decide.
  - rewrite Obj_lookup_alter_eq, Obj_lookup_insert_eq. done.
  - by rewrite Obj_lookup_insert_eq.
Qed.

Lemma lookup_addParameter_ne (schema : Obj SchemaEntry) (p : MCPToolParameter)
    (n : string) :
  n ≠ name p → addParameter schema p !! n = schema !! n.
Proof.
  intros Hn. unfold addParameter. case_decide.
  - rewrite Obj_lookup_alter_ne by done. by rewrite Obj_lookup_insert_ne.
  - by rewrite Obj_lookup_insert_ne.
Qed.

(** The schema never has the key [__proto__]. *)
Lemma Object_keys_addParameter_PROTO (schema : Obj SchemaEntry) (p : MCPToolParameter) :
  PROTO ∉ Object_keys schema → PROTO ∉ Object_keys (addParameter schema p).
Proof.
  intros Hk. unfold addParameter.
  assert (PROTO ∉ Object_keys (<[name p := {| entry_type := type p;
                                             entry_description := "Parameter: " ++ name p;
                                             items := None |}]> schema)) as Hi.
  { unfold Object_keys, insert, Obj_insert in *.
    destruct (decide (name p = PROTO)) as [Heq|Hne]; simpl; [done|].
    rewrite dom_insert. apply not_elem_of_union. split; [|done].
    by apply not_elem_of_singleton_2. }
  case_decide; [|done]. by rewrite Object_keys_alter.
Qed.

Lemma Object_keys_schema_PROTO (params : list MCPToolParameter) :
  PROTO ∉ Object_keys (generateParameterSchema params).
Proof.
  unfold generateParameterSchema.
  assert (PROTO ∉ Object_keys (∅ : Obj SchemaEntry)) as Hk.
  { unfold Object_keys. simpl. rewrite dom_empty. apply not_elem_of_empty. }
  revert Hk. generalize (∅ : Obj SchemaEntry).
  induction params as [|q params IH]; intros schema Hk; [done|].
  simpl. by apply IH, Object_keys_addParameter_PROTO.
Qed.

Lemma lookup_foldl_other (params : list MCPToolParameter)
    (schema : Obj SchemaEntry) (n : string) :
  (∀ q, q ∈ params → name q ≠ n) →
  foldl addParameter schema params !! n = schema !! n.
Proof.
  revert schema. induction params as [|q params IH]; intros schema Hq; [done|].
  simpl. rewrite IH.
  - apply lookup_addParameter_ne. intros ->. by apply (Hq q); [left|].
  - intros q' Hq'. apply Hq. by right.
Qed.

(** The entry of a name is the one written for the last parameter of that
    name. *)
Lemma lookup_schema_last (before after : list MCPToolParameter) (p : MCPToolParameter) :
  (∀ q, q ∈ after → name q ≠ name p) →
  generateParameterSchema (before ++ p :: after) !! name p = Some (entryOf p).
Proof.
  intros Hq. unfold generateParameterSchema.
  rewrite foldl_app. simpl. rewrite lookup_foldl_other by done.
  apply lookup_addParameter_eq.
Qed.






Lemma itemsOf_last (before after : list MCPToolParameter) (p : MCPToolParameter) :
  (∀ q, q ∈ after → name q ≠ name p) →
  itemsOf (generateParameterSchema (before ++ p :: after)) (name p)
  = expectedItems (type p).
Proof.
  intros Hq. unfold itemsOf. by rewrite lookup_schema_last.
Qed.

(** When no two parameters share a name, every parameter has its own
    entry. *)
Lemma items_follow_type_NoDup (params : list MCPToolParameter) :
  NoDup (map name params) → ItemsFollowType params.
Proof.
  intros Hnd p Hp.
  apply list_elem_of_split in Hp as (before & after & ->).
  apply itemsOf_last. intros q Hq Heq.
  rewrite map_app in Hnd. apply NoDup_app in Hnd as (_ & _ & Hnd).
  simpl in Hnd. apply NoDup_cons in Hnd as [Hnotin _].
  apply Hnotin. rewrite <- Heq. by apply list_elem_of_fmap_2.
Qed.

(** C10, as the code has it.  The entry found under a name is the one
    written for the last parameter of that name: for every parameter that
    no later parameter shadows, the entry under its name has [items] with
    type [string] when its inferred type is [array], and no [items] field
    for every other type. *)
Theorem schema_items_follow_last (before after : list MCPToolParameter)
    (p : MCPToolParameter) :
  (∀ q, q ∈ after → name q ≠ name p) →
  generateParameterSchema (before ++ p :: after) !! name p = Some (entryOf p)
  ∧ itemsOf (generateParameterSchema (before ++ p :: after)) (name p)
    = expectedItems (type p).
Proof.
  intros Hq. split; [by apply lookup_schema_last|by apply itemsOf_last].
Qed.

Lemma schema_items_follow_last_witness :
  let tags := {| name := "tags"; hasDefault := true; type := TArray |} in
  let cb := {| name := "cb"; hasDefault := true; type := TString |} in
  itemsOf (generateParameterSchema [cb; tags]) "tags"
  = Some {| items_type := TString |}.
Proof.
  intros tags cb.
  refine (proj2 (schema_items_follow_last [cb] [] tags _)).
  intros q Hq. inversion Hq.
Defined.

(** C10, as stated, fails: in [function f(tags = [], cb = wrap(x, tags))]
    the text up to the first closing parenthesis yields a parameter [tags]
    of type [array] and, from inside the call, another [tags] of type
    [string], whose entry replaces the first: a parameter of type [array]
    is left with an entry without [items]. *)
Lemma schema_items_counterexample :
  ∃ params,
    extractParameters "function f(tags = [], cb = wrap(x, tags)) {}" = Normal params
    ∧ ¬ ItemsFollowType params.
Proof.
  eexists. split; [vm_compute; reflexivity|].
  intros H.
  specialize (H {| name := "tags"; hasDefault := true; type := TArray |}
                (list_elem_of_here _ _)).
  vm_compute in H. discriminate.
Qed.

End SchemaFacts.

(** ** The walk over the exports *)

Module WalkFacts.
Import JsString Js Reflection Spec InferenceFacts SchemaFacts.

Local Arguments analyzeFunction : simpl never.
Local Arguments describe : simpl never.

Section ExportInduction.
Variable P : Export → Prop.
Hypothesis Hfunction : ∀ func, P (XFunction func).
Hypothesis Hobject : ∀ entries, Forall (λ kv, P (snd kv)) entries → P (XObject entries).
Hypothesis Hother : ∀ e,
  match e with XFunction _ | XObject _ => True | _ => P e end.

Fixpoint Export_nested_ind (e : Export) : P e :=
  match e with
  | XFunction func => Hfunction func
  | XObject entries =>
      Hobject entries
        ((fix all (es : list (string * Export)) : Forall (λ kv, P (snd kv)) es :=
            match es with
            | [] => List.Forall_nil _
            | kv :: rest =>
                List.Forall_cons _ kv rest (Export_nested_ind (snd kv)) (all rest)
            end) entries)
  | XArray elems => Hother (XArray elems)
  | XAncestor => Hother XAncestor
  | XNull => Hother XNull
  | XUndefined => Hother XUndefined
  | XBoolean b => Hother (XBoolean b)
  | XNumber n => Hother (XNumber n)
  | XString s => Hother (XString s)
  end.
End ExportInduction.

Lemma described_app (l1 l2 : list (string * Function)) :
  described (l1 ++ l2) = (described l1 ++ described l2)%list.
Proof. apply map_app. Qed.

Lemma joinName_memberName (prefix key : string) :
  joinName prefix key = memberName prefix key.
Proof. by destruct prefix. Qed.

(** One entry of the loop appends the descriptors of what it finds,
    unless the walk comes back to an enclosing object. *)
Lemma visit_discovered (value : Export) :
  ∀ (toolName : string) (tools : list MCPTool),
    visit value toolName tools
    = if reaches value then Throw stackOverflow
      else Normal (tools ++ described (discovered toolName value))%list.
Proof.
  revert value. refine (Export_nested_ind _ _ _ _).
  - intros func toolName tools. simpl. by rewrite analyzeFunction_describe.
  - intros entries IH toolName tools. simpl. revert tools.
    induction IH as [|[key v] rest Hv _ IHrest]; intros tools; simpl.
    + by rewrite app_nil_r.
    + simpl in Hv. rewrite Hv, joinName_memberName.
      destruct (reaches v); simpl; [done|].
      rewrite IHrest. case_match; [done|].
      by rewrite described_app, app_assoc.
  - intros e. destruct e; try done; intros toolName tools; simpl;
      by rewrite app_nil_r.
Qed.

Lemma forEntries_discovered (prefix : string) (es : list (string * Export))
    (tools : list MCPTool) :
  forEntries prefix es tools
  = if existsb (λ kv, reaches (snd kv)) es then Throw stackOverflow
    else Normal (tools ++ described
      (flat_map (λ kv, discovered (joinName prefix (fst kv)) (snd kv)) es))%list.
Proof.
  revert tools. induction es as [|[key value] rest IH]; intros tools; simpl.
  - by rewrite app_nil_r.
  - rewrite visit_discovered. destruct (reaches value); simpl; [done|].
    rewrite IH. case_match; [done|].
    by rewrite described_app, app_assoc.
Qed.

(** The entries of an array are its members under their indices. *)
Lemma existsb_indexed (i : nat) (elems : list Export) :
  existsb (λ kv : string * Export, reaches (snd kv))
    (imap (λ j e, (pretty (i + j)%nat, e)) elems)
  = existsb reaches elems.
Proof.
  revert i. induction elems as [|e elems IH]; intros i; [done|].
  simpl. f_equal. rewrite <- (IH (S i)). f_equal.
  apply imap_ext. intros j x _. simpl. do 2 f_equal. lia.
Qed.

Lemma discovered_indexed (i : nat) (elems : list Export) :
  flat_map (λ kv : string * Export, discovered (joinName "" (fst kv)) (snd kv))
    (imap (λ j e, (pretty (i + j)%nat, e)) elems)
  = discoveredFrom i elems.
Proof.
  revert i. induction elems as [|e elems IH]; intros i; [done|].
  simpl. rewrite Nat.add_0_r. f_equal. rewrite <- (IH (S i)). f_equal.
  apply imap_ext. intros j x _. simpl. do 2 f_equal. lia.
Qed.

(** The walk finds the callables of the exports, in order; it fails when
    the graph of the exports reaches itself. *)
Lemma analyzeExports_eq (exports : Export) :
  analyzeExports exports
  = if reachesItself exports then Throw stackOverflow
    else Normal (described (discoveredTools exports)).
Proof.
  destruct exports; simpl; try done.
  - by rewrite analyzeFunction_describe.
  - unfold traverse. by rewrite forEntries_discovered.
  - unfold traverse. rewrite forEntries_discovered. simpl.
    rewrite (existsb_indexed 0), (discovered_indexed 0). done.
Qed.






End WalkFacts.

(** ** The executor *)

Module SandboxFacts.
Import JsString Js Reflection Sandbox Spec.

Lemma find_filter_timer (id : nat) (ts : list Timer) :
  List.find (λ t, Nat.eqb (timer_id t) id) (filter (λ t, timer_id t ≠ id) ts) = None.
Proof.
  induction ts as [|t ts IH]; [done|].
  rewrite filter_cons. case_decide as Hid; [|done].
  simpl. by apply Nat.eqb_neq in Hid as ->.
Qed.

(** Once cleared, a timer is not armed any more, whatever else is. *)
Lemma findTimer_clearTimeout (id : nat) (l : EventLoop) :
  findTimer id (clearTimeout id l) = None.
Proof. apply find_filter_timer. Qed.

(** On a registered tool the timer plays no part: the call ends as the
    handler's own outcome says, and never ends when that never comes. *)
Lemma executeTool_registered (ex : ToolExecutor) (toolName : string) (tool : MCPTool)
    (args : list (string * Value)) (l : EventLoop) :
  Map_get toolName (tools ex) = Some tool →
  executeTool ex toolName args l =
    let run := apply (handler tool) (Object_values args) in
    let l2 := afterCall ex run l in
    match ownSettlement run with
    | None => Pending l2
    | Some (delay, s) =>
        let t := (now l + elapsed run + delay)%N in
        settledAs toolName (now l) t s (wake t None l2)
    end.
Proof.
  intros Hget. unfold executeTool. rewrite Hget. simpl.
  rewrite findTimer_clearTimeout. unfold settleFirst, afterCall. simpl.
  destruct (ownSettlement _) as [[delay [v|e]]|]; simpl; [done| |done].
  by destruct (errorMessage e).
Qed.



Lemma ownSettlement_FailsWith (run : Run) (e : Thrown) :
  FailsWith run e → ∃ delay, ownSettlement run = Some (delay, Rejected e).
Proof. unfold ownSettlement. intros [->|[delay ->]]; eauto. Qed.


Lemma Map_get_set_eq {V} (k : string) (v : V) (m : list (string * V)) :
  Map_get k (Map_set k v m) = Some v.
Proof.
  induction m as [|[k' v'] m IH]; simpl.
  - by rewrite String.eqb_refl.
  - destruct (String.eqb k' k) eqn:Hk; simpl.
    + by rewrite String.eqb_refl.
    + by rewrite Hk.
Qed.

Lemma invokes_with_values (ex : ToolExecutor) (toolName : string)
    (args : list (string * Value)) :
  InvokesWith ex toolName args (Object_values args).
Proof.
  intros tool l Hget. unfold getTool in Hget.
  rewrite (executeTool_registered _ _ _ _ _ Hget).
  by rewrite (executeTool_registered (handing (Object_values args) toolName tool ex)
               toolName _ args l (Map_get_set_eq _ _ _)).
Qed.

Lemma positional_skip (params : list MCPToolParameter) (k : string) (v : Value)
    (args : list (string * Value)) :
  k ∉ map name params →
  positionalByDeclaration params ((k, v) :: args) = positionalByDeclaration params args.
Proof.
  intros Hk. unfold positionalByDeclaration. apply map_ext_in.
  intros p Hp. simpl. destruct (String.eqb k (name p)) eqn:Heq; [|done].
  apply String.eqb_eq in Heq as ->. destruct Hk.
  apply list_elem_of_In, in_map, Hp.
Qed.

(** A bag whose keys are the declared names, in the declared order. *)
Lemma values_in_declared_order (params : list MCPToolParameter)
    (args : list (string * Value)) :
  NoDup (map fst args) → map fst args = map name params →
  Object_values args = positionalByDeclaration params args.
Proof.
  revert params. induction args as [|[k v] args IH]; intros [|p params] Hnd Heq;
    simplify_eq/=; [done|].
  apply NoDup_cons in Hnd as [Hk Hnd].
  rewrite String.eqb_refl. simpl. f_equal.
  rewrite positional_skip by (by rewrite <- H0).
  by apply IH.
Qed.

(** C1, evaluated on the code.  With the timeout of five seconds, an
    asynchronous handler that settles after ten seconds yields
    [success = true] after ten seconds, a synchronous handler that runs for
    eight seconds yields [success = true] after eight, and a call whose
    promise never settles never returns: the timer is cleared as soon as
    the handler has returned, so that no call ends in
    [Execution timeout]. *)
Theorem executeTool_misses_deadline :
  timeout Scenario.executor = 5000%N
  ∧ executeTool Scenario.executor "slow" [] Scenario.idle
    = Resolved {| success := true; result := Some (VNum 1); error := None;
                  toolName := "slow"; executionTime := 10000 |}
               {| now := 11000; timers := []; nextTimer := 1; clockReads := 2 |}
  ∧ executeTool Scenario.executor "spin" [] Scenario.idle
    = Resolved {| success := true; result := Some (VNum 1); error := None;
                  toolName := "spin"; executionTime := 8000 |}
               {| now := 9000; timers := []; nextTimer := 1; clockReads := 2 |}
  ∧ executeTool Scenario.executor "stuck" [] Scenario.idle
    = Pending {| now := 1000; timers := []; nextTimer := 1; clockReads := 1 |}.
Proof. repeat split; vm_compute; reflexivity. Qed.

(** C2, as stated, fails: [subtract(a, b)] called with the bag
    [{b: 2, a: 10}] receives 2 and 10 in that order and returns -8, not
    the 8 of the declared order. *)
Lemma declared_order_counterexample :
  ¬ InvokesInDeclaredOrder Scenario.executor "subtract"
      [("b", VNum 2); ("a", VNum 10)].
Proof.
  intros H.
  assert (getTool "subtract" Scenario.executor
          = Some (describe "subtract" Scenario.subtract)) as Hget
    by (vm_compute; reflexivity).
  specialize (H _ Hget _ Scenario.idle Hget).
  vm_compute in H. discriminate.
Qed.

(** C2, as the code has it.  The handler is invoked with the values of
    the argument bag in the bag's own key order; these are the values in
    the declared parameter order when the keys of the bag are the declared
    names in the declared order. *)
Theorem executeTool_passes_bag_order (ex : ToolExecutor) (toolName : string)
    (args : list (string * Value)) :
  InvokesWith ex toolName args (Object_values args)
  ∧ (∀ params, NoDup (map fst args) → map fst args = map name params →
       Object_values args = positionalByDeclaration params args).
Proof.
  split; [apply invokes_with_values|].
  intros params. apply values_in_declared_order.
Qed.

Lemma executeTool_passes_bag_order_witness :
  Object_values [("a", VNum 10); ("b", VNum 2)]
  = positionalByDeclaration (parametersOf Scenario.subtract)
      [("a", VNum 10); ("b", VNum 2)].
Proof.
  refine (proj2 (executeTool_passes_bag_order Scenario.executor "subtract"
                   [("a", VNum 10); ("b", VNum 2)])
            (parametersOf Scenario.subtract) _ _).
  - simpl. apply NoDup_cons_2; [|apply NoDup_singleton].
    intros Hin. inversion Hin as [|? ? ? Hnil]; inversion Hnil.
  - vm_compute. reflexivity.
Defined.


Lemma errorMessage_Reported (e : Thrown) (message : string) :
  Reported e message → errorMessage e = Normal message.
Proof.
  intros [m|name m Hname Hm|m|name|v]; simpl; try done.
  - by destruct name, m.
  - by destruct name.
Qed.

Lemma Reported_errorMessage (e : Thrown) (message : string) :
  errorMessage e = Normal message → Reported e message.
Proof.
  destruct e as [m|name m|v|complaint]; simpl; intros [= <-].
  - apply reported_error.
  - destruct name as [|c name]; [apply reported_unnamed|].
    destruct m as [|c' m]; [apply reported_silent|].
    by apply reported_foreign.
  - apply reported_value.
Qed.

Lemma errorMessage_Unprintable (e complaint : Thrown) :
  errorMessage e = Throw complaint → e = Unprintable complaint.
Proof. destruct e; simpl; by intros [= <-]. Qed.




End SandboxFacts.

(** ** The dispatch of requests *)

Module ServerFacts.
Import Js Sandbox Server Spec.

Lemma isMethod_unknown (m : option string) (known : string) :
  (∀ name, m = Some name → name ≠ known) → isMethod m known = false.
Proof.
  intros Hm. destruct m as [name|]; [|done].
  simpl. apply String.eqb_neq. by apply Hm.
Qed.

Lemma not_in_table (m : option string) (known : string) :
  known ∈ knownMethods →
  (∀ name, m = Some name → name ∉ knownMethods) →
  isMethod m known = false.
Proof.
  intros Hk Hm. apply isMethod_unknown. intros name -> ->. by apply (Hm known).
Qed.

(** C7. A request whose method is none of the five of the table gets an
    error response with the id of the request, the code -32603 and the
    message [Unknown method: ] followed by the method. *)
Theorem unknown_method_response (srv : MCPServer) (message : MCPMessage)
    (l : EventLoop) :
  (∀ name, method message = Some name → name ∉ knownMethods) →
  handleMCPRequest srv message l
  = Resolved {| id := id message; method := None; params := None;
                result := None;
                error := Some {| code := -32603;
                                 message := "Unknown method: "
                                            ++ showMethod (method message) |} |} l.
Proof.
  intros Hm. unfold handleMCPRequest.
  rewrite !(not_in_table (method message)); try done;
    unfold knownMethods; set_solver.
Qed.

Lemma unknown_method_response_witness :
  handleMCPRequest (newMCPServer {| opt_port := None; opt_host := None;
                                    opt_timeout := None; opt_maxMemory := None |})
    {| id := Some (IdNumber 7); method := Some "resources/list"; params := None;
       result := None; error := None |} Scenario.idle
  = Resolved {| id := Some (IdNumber 7); method := None; params := None;
                result := None;
                error := Some {| code := -32603;
                                 message := "Unknown method: resources/list" |} |}
             Scenario.idle.
Proof.
  refine (unknown_method_response _
            {| id := Some (IdNumber 7); method := Some "resources/list";
               params := None; result := None; error := None |} _ _).
  intros name [= <-] Hin. apply list_elem_of_In in Hin. simpl in Hin.
  intuition discriminate.
Defined.

End ServerFacts.

(** ** The facade *)

Module IndexFacts.
Import Js Sandbox Index.

(** C9. While no module is loaded, [getTools] returns the empty list and
    does not throw, whereas [executeTool], [start] and [saveConfig] fail
    with [No module loaded. Call loadModule() first.]. *)
Theorem getTools_before_load (sb : MCPSandbox) :
  executor sb = None →
  getTools sb = []
  ∧ (∀ toolName args l,
       executeTool sb toolName args l = RaisedOut (ErrorObject noModule) l)
  ∧ (∀ h, start h sb = Throw noModule)
  ∧ (∀ h outputPath, saveConfig h outputPath sb = Throw noModule).
Proof.
  intros Hex. unfold getTools, executeTool, start, saveConfig.
  by rewrite Hex.
Qed.

Lemma getTools_before_load_witness :
  getTools (newMCPSandbox {| Server.opt_port := None; Server.opt_host := None;
                             Server.opt_timeout := None;
                             Server.opt_maxMemory := None |}) = [].
Proof.
  refine (proj1 (getTools_before_load (newMCPSandbox _) _)).
  reflexivity.
Defined.

End IndexFacts.

(** ** The registry of tools *)

Module RegistryFacts.
Import Js Reflection Sandbox Notions.

Section MapFacts.
Context {V : Type}.
Implicit Types (m : list (string * V)) (k : string) (v : V).

Lemma Map_get_set_ne k k' v m :
  k ≠ k' → Map_get k' (Map_set k v m) = Map_get k' m.
Proof.
  intros Hne. induction m as [|[k0 v0] m IH]; simpl.
  - by apply String.eqb_neq in Hne as ->.
  - destruct (String.eqb k0 k) eqn:Hk; simpl.
    + apply String.eqb_eq in Hk as ->.
      by apply String.eqb_neq in Hne as ->.
    + by rewrite IH.
Qed.

Lemma Map_get_None k m : Map_get k m = None ↔ k ∉ map fst m.
Proof.
  induction m as [|[k0 v0] m IH]; simpl.
  - split; [intros _; apply not_elem_of_nil|done].
  - rewrite not_elem_of_cons. destruct (String.eqb k0 k) eqn:Hk.
    + apply String.eqb_eq in Hk as ->. split; [done|]. by intros [? _].
    + apply String.eqb_neq in Hk. rewrite IH. split; [|by intros [_ ?]].
      intros Hm. split; [by intros ->|done].
Qed.

Lemma Map_set_fresh k v m :
  k ∉ map fst m → Map_set k v m = (m ++ [(k, v)])%list.
Proof.
  induction m as [|[k0 v0] m IH]; simpl; [done|].
  rewrite not_elem_of_cons. intros [Hne Hk].
  apply not_eq_sym, String.eqb_neq in Hne. rewrite Hne. by rewrite IH.
Qed.

Lemma keys_Map_set_present k v m :
  k ∈ map fst m → map fst (Map_set k v m) = map fst m.
Proof.
  induction m as [|[k0 v0] m IH]; simpl; [by intros ?%elem_of_nil|].
  destruct (String.eqb k0 k) eqn:Hk; simpl.
  - apply String.eqb_eq in Hk as ->. done.
  - apply String.eqb_neq in Hk. intros [?|Hin]%elem_of_cons; [done|].
    by rewrite IH.
Qed.

Lemma UniqueKeys_Map_set k v m : UniqueKeys m → UniqueKeys (Map_set k v m).
Proof.
  unfold UniqueKeys. intros Hm.
  destruct (decide (k ∈ map fst m)) as [Hin|Hout].
  - by rewrite keys_Map_set_present.
  - rewrite Map_set_fresh, map_app by done. simpl.
    apply NoDup_app. split_and!; [done| |apply NoDup_singleton].
    intros x Hx ->%list_elem_of_singleton. done.
Qed.

Lemma elem_of_Map_set k v m (entry : string * V) :
  entry ∈ Map_set k v m → entry = (k, v) ∨ entry ∈ m.
Proof.
  induction m as [|[k0 v0] m IH]; simpl.
  - intros ?%list_elem_of_singleton. by left.
  - destruct (String.eqb k0 k).
    + intros [->|Hin]%elem_of_cons; [by left|]. right. by right.
    + intros [->|Hin]%elem_of_cons; [right; by left|].
      destruct (IH Hin) as [->|?]; [by left|]. right. by right.
Qed.

Lemma Map_get_elem_of k v m :
  UniqueKeys m → (k, v) ∈ m → Map_get k m = Some v.
Proof.
  unfold UniqueKeys. induction m as [|[k0 v0] m IH]; simpl.
  - by intros _ ?%elem_of_nil.
  - intros [Hk0 Hm]%NoDup_cons [[= -> ->]|Hin]%elem_of_cons.
    + by rewrite String.eqb_refl.
    + destruct (String.eqb k0 k) eqn:Hk; [|by apply IH].
      apply String.eqb_eq in Hk as ->. destruct Hk0.
      by apply (list_elem_of_fmap_2 fst) in Hin.
Qed.

End MapFacts.

(** Every key of the registry is the name of the tool stored under it. *)
Definition KeyedByName (m : list (string * MCPTool)) : Prop :=
  Forall (λ entry, fst entry = tool_name (snd entry)) m.

Lemma KeyedByName_Map_set (tool : MCPTool) (m : list (string * MCPTool)) :
  KeyedByName m → KeyedByName (Map_set (tool_name tool) tool m).
Proof.
  unfold KeyedByName. rewrite !Forall_forall. intros Hm entry Hin.
  apply elem_of_Map_set in Hin as [->|Hin]; [done|by apply Hm].
Qed.

Lemma addTools_cons (tool : MCPTool) (ts : list MCPTool) (ex : ToolExecutor) :
  addTools (tool :: ts) ex = addTools ts (addTool tool ex).
Proof. done. Qed.

Lemma addTools_app (ts1 ts2 : list MCPTool) (ex : ToolExecutor) :
  addTools (ts1 ++ ts2) ex = addTools ts2 (addTools ts1 ex).
Proof. unfold addTools. apply foldl_app. Qed.

Lemma getTool_addTool_eq (tool : MCPTool) (ex : ToolExecutor) (n : string) :
  getTool n (addTool tool ex)
  = if decide (n = tool_name tool) then Some tool else getTool n ex.
Proof.
  unfold getTool, addTool. simpl. case_decide as Hn.
  - subst. apply SandboxFacts.Map_get_set_eq.
  - by apply Map_get_set_ne.
Qed.

Lemma getTool_addTools_other (ts : list MCPTool) (ex : ToolExecutor) (n : string) :
  n ∉ map tool_name ts → getTool n (addTools ts ex) = getTool n ex.
Proof.
  revert ex. induction ts as [|tool ts IH]; intros ex Hn; [done|].
  simpl in Hn. apply not_elem_of_cons in Hn as [Hne Hn].
  rewrite addTools_cons, IH, getTool_addTool_eq by done.
  by case_decide.
Qed.

Lemma registry_invariant (ts : list MCPTool) (ex : ToolExecutor) :
  UniqueKeys (tools ex) → KeyedByName (tools ex) →
  UniqueKeys (tools (addTools ts ex)) ∧ KeyedByName (tools (addTools ts ex)).
Proof.
  revert ex. induction ts as [|tool ts IH]; intros ex Hu Hk; [done|].
  rewrite addTools_cons. apply IH; simpl.
  - by apply UniqueKeys_Map_set.
  - by apply KeyedByName_Map_set.
Qed.

Lemma addTools_fresh_names (ts : list MCPTool) (ex : ToolExecutor) :
  NoDup (map fst (tools ex) ++ map tool_name ts) →
  tools (addTools ts ex)
  = (tools ex ++ map (λ tool, (tool_name tool, tool)) ts)%list.
Proof.
  revert ex. induction ts as [|tool ts IH]; intros ex Hnd.
  - simpl. by rewrite app_nil_r.
  - rewrite addTools_cons, IH; simpl.
    + rewrite Map_set_fresh, <- app_assoc; [done|].
      apply NoDup_app in Hnd as (_ & Hdis & _). intros Hin.
      apply (Hdis _ Hin). by left.
    + rewrite Map_set_fresh, map_app, <- app_assoc; [done|].
      apply NoDup_app in Hnd as (_ & Hdis & _). intros Hin.
      apply (Hdis _ Hin). by left.
Qed.

Lemma registry_entries (ts : list MCPTool) (ex : ToolExecutor)
    (entry : string * MCPTool) :
  entry ∈ tools (addTools ts ex) →
  entry ∈ tools ex ∨ (snd entry ∈ ts ∧ fst entry = tool_name (snd entry)).
Proof.
  revert ex. induction ts as [|tool ts IH]; intros ex Hin; [by left|].
  rewrite addTools_cons in Hin. apply IH in Hin as [Hin|[Hin Hk]].
  - simpl in Hin. apply elem_of_Map_set in Hin as [->|Hin]; [|by left].
    right. split; [by left|done].
  - right. split; [by right|done].
Qed.

Lemma getTools_roundtrip (ts : list MCPTool) (timeout : option N) :
  NoDup (map tool_name ts) →
  getTools (addTools ts (newToolExecutor timeout)) = ts.
Proof.
  intros Hnd. unfold getTools, Map_values.
  rewrite addTools_fresh_names by done. simpl.
  rewrite map_map. simpl. apply map_id.
Qed.

Lemma getTool_addTools_is_Some (ts : list MCPTool) (ex : ToolExecutor) (n : string) :
  is_Some (getTool n (addTools ts ex))
  ↔ n ∈ map tool_name ts ∨ is_Some (getTool n ex).
Proof.
  revert ex. induction ts as [|tool ts IH]; intros ex.
  - simpl. split; [by right|]. intros [Hin|?]; [|done]. by apply elem_of_nil in Hin.
  - rewrite addTools_cons, IH, getTool_addTool_eq. simpl. rewrite elem_of_cons.
    case_decide as Hn; [subst|]; split; intros H.
    + left. by left.
    + destruct H as [[?|?]|?]; [right; by eexists|by left|right; by eexists].
    + destruct H as [?|?]; [left; by right|by right].
    + destruct H as [[?|?]|?]; [done|by left|by right].
Qed.

(** X1. Registering a tool and looking it up: [getTool] finds the tool
    just added under its name, in place of any earlier tool of that name,
    and every other name is looked up as before. *)
Theorem getTool_addTool (tool : MCPTool) (ex : ToolExecutor) (n : string) :
  getTool n (addTool tool ex)
  = if decide (n = tool_name tool) then Some tool else getTool n ex.
Proof. apply getTool_addTool_eq. Qed.

(** X2. Tools with pairwise distinct names, added to a new executor, are
    listed by [getTools] as they were given, in the same order. *)
Theorem getTools_addTools_distinct (ts : list MCPTool) (timeout : option N) :
  NoDup (map tool_name ts) →
  getTools (addTools ts (newToolExecutor timeout)) = ts.
Proof. apply getTools_roundtrip. Qed.

Lemma getTools_addTools_distinct_witness :
  getTools (addTools (Spec.described (Spec.discoveredTools Scenario.moduleExports))
              (newToolExecutor None))
  = Spec.described (Spec.discoveredTools Scenario.moduleExports).
Proof.
  apply getTools_addTools_distinct. vm_compute.
  repeat (apply NoDup_cons_2;
    [intros Hin; apply list_elem_of_In in Hin; simpl in Hin; intuition discriminate|]).
  apply NoDup_nil_2.
Defined.

(** X3. When several tools share a name, the last one wins: after
    [addTools], a name is bound to the last tool of the list that has it,
    and a name that no tool of the list has is bound as before. *)
Theorem addTools_last_wins (before after : list MCPTool) (tool : MCPTool)
    (ex : ToolExecutor) :
  (∀ t, t ∈ after → tool_name t ≠ tool_name tool) →
  getTool (tool_name tool) (addTools (before ++ tool :: after) ex) = Some tool.
Proof.
  intros Hafter.
  rewrite addTools_app, addTools_cons, getTool_addTools_other.
  - rewrite getTool_addTool_eq. by case_decide.
  - intros (t & Heq & Hin)%list_elem_of_fmap. by apply (Hafter t).
Qed.

Lemma addTools_last_wins_witness :
  let first := Spec.describe "run" Scenario.slow in
  let second := Spec.describe "run" Scenario.spin in
  getTool "run" (addTools [first; second] (newToolExecutor None)) = Some second.
Proof.
  intros first second.
  refine (addTools_last_wins [first] [] second (newToolExecutor None) _).
  intros t Hin. inversion Hin.
Defined.

(** X4. The registry never lists two tools of the same name: whatever is
    added to a new executor, the names listed by [getTools] are pairwise
    distinct, every tool listed was added, and every tool listed is the one
    [getTool] finds under its name. *)
Theorem getTools_names_distinct (ts : list MCPTool) (timeout : option N) :
  let ex := addTools ts (newToolExecutor timeout) in
  NoDup (map tool_name (getTools ex))
  ∧ Forall (λ tool, tool ∈ ts) (getTools ex)
  ∧ Forall (λ tool, getTool (tool_name tool) ex = Some tool) (getTools ex).
Proof.
  intros ex.
  destruct (registry_invariant ts (newToolExecutor timeout)) as [Hu Hk];
    [apply NoDup_nil_2|apply List.Forall_nil|].
  fold ex in Hu, Hk. unfold KeyedByName in Hk. rewrite Forall_forall in Hk.
  assert (map tool_name (getTools ex) = map fst (tools ex)) as Hnames.
  { unfold getTools, Map_values. rewrite map_map. apply map_ext_in.
    intros entry Hin. symmetry. apply Hk. by apply list_elem_of_In. }
  split_and!.
  - by rewrite Hnames.
  - apply Forall_forall. intros tool Hin.
    apply list_elem_of_fmap in Hin as (entry & -> & Hin).
    apply registry_entries in Hin as [Hin|[Hin _]]; [|done].
    by apply elem_of_nil in Hin.
  - apply Forall_forall. intros tool Hin.
    apply list_elem_of_fmap in Hin as ([k t] & -> & Hin).
    pose proof (Hk _ Hin) as Hkey. simpl in *. subst k.
    by apply Map_get_elem_of.
Qed.

End RegistryFacts.

(** ** Timing and results of the executor *)

Module ExecutorFacts.
Import Js Reflection Sandbox Notions Spec SandboxFacts.

Lemma filter_other_timers (id : nat) (ts : list Timer) :
  Forall (λ t, (timer_id t < id)%nat) ts →
  filter (λ t, timer_id t ≠ id) ts = ts.
Proof.
  induction 1 as [|t ts Ht _ IH]; [done|].
  rewrite filter_cons, IH. case_decide; [done|lia].
Qed.

Lemma timers_afterCall (ex : ToolExecutor) (run : Run) (l : EventLoop) :
  WellFormedLoop l → timers (afterCall ex run l) = timers l.
Proof.
  intros Hwf. unfold afterCall. simpl.
  rewrite filter_cons. case_decide; [done|].
  by apply filter_other_timers.
Qed.

Lemma WellFormedLoop_later (l l' : EventLoop) :
  WellFormedLoop l → timers l' = timers l → nextTimer l' = S (nextTimer l) →
  WellFormedLoop l'.
Proof.
  unfold WellFormedLoop. intros Hwf -> ->.
  eapply Forall_impl; [exact Hwf|]. simpl. lia.
Qed.

(** X5. A call of [executeTool] on a loop whose timers were all handed
    out by [setTimeout]: when it raises because the tool is not found, the
    loop is untouched; when it returns, the execution time reported is the
    time the clock moved by, the clock was read twice, and the timers armed
    are those armed before (the call leaves no timer behind); when it stays
    pending, or raises on a registered tool, the timers are also those armed
    before. *)
Theorem executeTool_leaves_no_timer (ex : ToolExecutor) (toolName : string)
    (args : list (string * Value)) (l : EventLoop) :
  WellFormedLoop l →
  match executeTool ex toolName args l with
  | RaisedOut _ l' =>
      timers l' = timers l ∧ WellFormedLoop l'
      ∧ (getTool toolName ex = None → l' = l)
      ∧ (is_Some (getTool toolName ex) → clockReads l' = S (clockReads l))
  | Resolved r l' =>
      executionTime r = (now l' - now l)%N ∧ (now l ≤ now l')%N
      ∧ clockReads l' = S (S (clockReads l))
      ∧ timers l' = timers l ∧ WellFormedLoop l'
  | Pending l' => timers l' = timers l ∧ WellFormedLoop l'
  end.
Proof.
  intros Hwf.
  destruct (Map_get toolName (tools ex)) as [tool|] eqn:Hget.
  - rewrite (executeTool_registered _ _ _ _ _ Hget). cbv zeta.
    pose proof (timers_afterCall ex (apply (handler tool) (Object_values args)) l Hwf)
      as Htimers.
    set (run := apply (handler tool) (Object_values args)) in *.
    assert (∀ t, WellFormedLoop (wake t None (afterCall ex run l))) as Hwake
      by (intros t; by apply (WellFormedLoop_later l)).
    assert (∀ t, WellFormedLoop (snd (Date_now (wake t None (afterCall ex run l)))))
      as Hread by (intros t; by apply (WellFormedLoop_later l)).
    destruct (ownSettlement run) as [[delay [v|e]]|]; unfold settledAs.
    + split_and!; [simpl; lia|simpl; lia|done|done|apply Hread].
    + destruct (errorMessage e).
      * split_and!; [simpl; lia|simpl; lia|done|done|apply Hread].
      * unfold getTool. rewrite Hget. split_and!; [done|apply Hwake|done|done].
    + split; [done|]. by apply (WellFormedLoop_later l).
  - unfold executeTool, getTool. rewrite Hget. by split_and!.
Qed.

Lemma executeTool_leaves_no_timer_witness :
  match executeTool Scenario.executor "slow" [] Scenario.idle with
  | Resolved r l' => executionTime r = (now l' - now Scenario.idle)%N
                     ∧ timers l' = timers Scenario.idle
  | _ => False
  end.
Proof.
  pose proof (executeTool_leaves_no_timer Scenario.executor "slow" [] Scenario.idle)
    as H.
  destruct (executeTool Scenario.executor "slow" [] Scenario.idle) eqn:Hrun;
    [|discriminate Hrun..].
  destruct H as (Ht & _ & _ & Htimers & _); [apply List.Forall_nil|]. done.
Defined.

(** X6. Every result of [executeTool] names the tool that was asked for
    and holds either a value or an error message, never both: with
    [success = true] there is a result and no error, with [success = false]
    an error and no result. *)
Theorem executeTool_result_shape (ex : ToolExecutor) (toolName : string)
    (args : list (string * Value)) (l l' : EventLoop) (r : ExecutionResult) :
  executeTool ex toolName args l = Resolved r l' →
  Sandbox.toolName r = toolName
  ∧ ((success r = true ∧ is_Some (result r) ∧ error r = None)
     ∨ (success r = false ∧ result r = None ∧ is_Some (error r))).
Proof.
  intros Hrun.
  destruct (Map_get toolName (tools ex)) as [tool|] eqn:Hget.
  - rewrite (executeTool_registered _ _ _ _ _ Hget) in Hrun. simpl in Hrun.
    destruct (ownSettlement _) as [[delay [v|e]]|]; simplify_eq/=.
    + split; [done|]. left. eauto.
    + destruct (errorMessage e); simplify_eq/=. split; [done|]. right. eauto.
  - unfold executeTool in Hrun. by rewrite Hget in Hrun.
Qed.

Lemma executeTool_result_shape_witness :
  ∃ r l', executeTool Scenario.executor "fail" [] Scenario.idle = Resolved r l'
          ∧ Sandbox.toolName r = "fail"
          ∧ ((success r = true ∧ is_Some (result r) ∧ error r = None)
             ∨ (success r = false ∧ result r = None ∧ is_Some (error r))).
Proof.
  eexists _, _. split; [vm_compute; reflexivity|].
  eapply (executeTool_result_shape Scenario.executor "fail" [] Scenario.idle).
  vm_compute. reflexivity.
Defined.

(** X7. When the handler of a registered tool returns a value, or a
    promise that is fulfilled, the call succeeds with that value, and the
    execution time is the running time of the handler plus the time the
    promise took to settle, however long that is. *)
Theorem executeTool_success (ex : ToolExecutor) (toolName : string) (tool : MCPTool)
    (args : list (string * Value)) (l : EventLoop) (delay : N) (v : Value) :
  getTool toolName ex = Some tool →
  ownSettlement (apply (handler tool) (Object_values args)) = Some (delay, Fulfilled v) →
  ∃ l', executeTool ex toolName args l
        = Resolved {| success := true; result := Some v; error := None;
                      toolName := toolName;
                      executionTime :=
                        elapsed (apply (handler tool) (Object_values args)) + delay |} l'.
Proof.
  intros Hget Hown. unfold getTool in Hget.
  rewrite (executeTool_registered _ _ _ _ _ Hget). cbv zeta. rewrite Hown.
  eexists. unfold settledAs, successOf. do 2 f_equal. lia.
Qed.

Lemma executeTool_success_witness :
  ∃ l', executeTool Scenario.executor "subtract"
          [("a", VNum 10); ("b", VNum 2)] Scenario.idle
        = Resolved {| success := true; result := Some (VNum 8); error := None;
                      toolName := "subtract"; executionTime := 0 |} l'.
Proof.
  refine (executeTool_success Scenario.executor "subtract"
            (describe "subtract" Scenario.subtract)
            [("a", VNum 10); ("b", VNum 2)] Scenario.idle 0 (VNum 8) _ _).
  - vm_compute. reflexivity.
  - vm_compute. reflexivity.
Defined.

End ExecutorFacts.

(** ** The answers of the dispatcher *)

Module DispatchFacts.
Import Js Reflection Notions Spec.
Import Sandbox (EventLoop, Outcome, Resolved, RaisedOut, Pending, ToolExecutor,
                getTool, ownSettlement, errorMessage).
Import Server SandboxFacts.

Definition plainOptions : SandboxOptions :=
  {| opt_port := None; opt_host := None; opt_timeout := None; opt_maxMemory := None |}.

(** The server of the module of [Scenario], once it is loaded. *)
Definition loadedServer : MCPServer :=
  setExecutor Scenario.executor (newMCPServer plainOptions).

Definition callOf (i : option Id) (name : option string)
    (args : option (list (string * Value))) : MCPMessage :=
  {| id := i; method := Some "tools/call";
     params := Some {| params_name := name; params_arguments := args |};
     result := None; error := None |}.

(** A response is well formed for a request: same id, no method, and a
    result or an error of code -32603, not both. *)
Definition Answers (message response : MCPMessage) : Prop :=
  id response = id message
  ∧ method response = None
  ∧ match result response, error response with
    | Some _, None => True
    | None, Some e => code e = (-32603)%Z
    | _, _ => False
    end.

Lemma respond_answers (message : MCPMessage) (payload : Payload) :
  Answers message (respond message payload).
Proof. done. Qed.

Lemma errorResponse_answers (message : MCPMessage) (e : Thrown) :
  Answers message (errorResponse message e).
Proof. done. Qed.

Lemma handleToolsCall_answers (srv : MCPServer) (message : MCPMessage) (l : EventLoop) :
  match handleToolsCall srv message l with
  | Resolved response _ => Answers message response
  | RaisedOut _ _ => False
  | Pending _ => True
  end.
Proof.
  unfold handleToolsCall.
  destruct (params message ≫= params_name) as [[|c n]|];
    try apply errorResponse_answers.
  destruct (executorOf srv "executeTool") as [e|ex];
    [apply errorResponse_answers|].
  destruct (Sandbox.executeTool _ _ _ _) as [r l'|e l'|l']; [|done..].
  destruct (negb (Sandbox.success r)); [apply errorResponse_answers|].
  destruct (Sandbox.result r ≫= stringifyError);
    [apply errorResponse_answers|apply respond_answers].
Qed.

Lemma dispatch_answers (srv : MCPServer) (message : MCPMessage) (l : EventLoop) :
  match handleMCPRequest srv message l with
  | Resolved response _ => Answers message response
  | RaisedOut _ _ => False
  | Pending _ => method message = Some "tools/call"
  end.
Proof.
  unfold handleMCPRequest.
  destruct (isMethod (method message) "initialize"); [apply respond_answers|].
  destruct (isMethod (method message) "notifications/initialized");
    [apply respond_answers|].
  destruct (isMethod (method message) "tools/list").
  { destruct (executorOf srv "getTools");
      [apply errorResponse_answers|apply respond_answers]. }
  destruct (isMethod (method message) "tools/call") eqn:Hcall.
  { pose proof (handleToolsCall_answers srv message l) as H.
    destruct (handleToolsCall srv message l); try done.
    destruct (method message) as [m|]; [|done].
    simpl in Hcall. by apply String.eqb_eq in Hcall as ->. }
  destruct (isMethod (method message) "ping");
    [apply respond_answers|apply errorResponse_answers].
Qed.

(** X8. The dispatcher never raises: whatever the request, it answers
    with a response that carries the id of the request and holds either a
    result or an error of code -32603, never both; only a [tools/call] can
    be left without an answer, when the call of the tool never ends. *)
Theorem handleMCPRequest_answers (srv : MCPServer) (message : MCPMessage)
    (l : EventLoop) :
  match handleMCPRequest srv message l with
  | Resolved response _ => Answers message response
  | RaisedOut _ _ => False
  | Pending _ => method message = Some "tools/call"
  end.
Proof. apply dispatch_answers. Qed.

(** X9. A [tools/call] without a tool name, or with the empty name, is
    answered with the error [Tool name is required], whether or not an
    executor is bound, and nothing else happens. *)
Theorem tools_call_requires_name (srv : MCPServer) (message : MCPMessage)
    (l : EventLoop) :
  method message = Some "tools/call" →
  params message ≫= params_name = None ∨ params message ≫= params_name = Some "" →
  handleMCPRequest srv message l
  = Resolved (errorResponse message (ErrorObject "Tool name is required")) l.
Proof.
  intros Hm Hname. unfold handleMCPRequest. rewrite Hm. simpl.
  unfold handleToolsCall. by destruct Hname as [-> | ->].
Qed.

Lemma tools_call_requires_name_witness :
  handleMCPRequest (newMCPServer plainOptions)
    (callOf (Some (IdNumber 1)) None (Some [("radius", VNum 5)])) Scenario.idle
  = Resolved (errorResponse (callOf (Some (IdNumber 1)) None (Some [("radius", VNum 5)]))
                (ErrorObject "Tool name is required")) Scenario.idle.
Proof.
  apply tools_call_requires_name; [reflexivity|]. left. reflexivity.
Defined.

(** X10. A [tools/call] that names a tool which is not registered is
    answered with the error [Tool '<name>' not found], not with an
    exception, and the event loop is left as it was. *)
Theorem tools_call_unknown_tool (srv : MCPServer) (ex : ToolExecutor)
    (i : option Id) (name : string) (args : option (list (string * Value)))
    (l : EventLoop) :
  executor srv = Some ex → name ≠ "" → getTool name ex = None →
  handleMCPRequest srv (callOf i (Some name) args) l
  = Resolved (errorResponse (callOf i (Some name) args)
                (ErrorObject ("Tool '" ++ name ++ "' not found"))) l.
Proof.
  intros Hex Hname Hget. unfold handleMCPRequest, handleToolsCall, executorOf.
  simpl. rewrite Hex. destruct name as [|c name]; [done|].
  unfold Sandbox.executeTool. unfold getTool in Hget. by rewrite Hget.
Qed.

Lemma tools_call_unknown_tool_witness :
  handleMCPRequest loadedServer (callOf (Some (IdString "a")) (Some "missing") None)
    Scenario.idle
  = Resolved (errorResponse (callOf (Some (IdString "a")) (Some "missing") None)
                (ErrorObject "Tool 'missing' not found")) Scenario.idle.
Proof.
  apply (tools_call_unknown_tool loadedServer Scenario.executor); [reflexivity|done|].
  vm_compute. reflexivity.
Defined.

(** X11. A [tools/call] of a registered tool reports what the handler
    does.  A value returned, or the value a returned promise is fulfilled
    with, comes back as the content of a result with [isError = false] when
    it can be turned into JSON, and as a protocol error with the complaint
    of [JSON.stringify] when it cannot.  A failure comes back as a protocol
    error whose message is the message of the failure ([Tool execution
    failed] when that message is empty); when the failure cannot be turned
    into a message, the protocol error is that of what the conversion
    throws. *)
Theorem tools_call_reports_handler (srv : MCPServer) (ex : ToolExecutor)
    (tool : MCPTool) (i : option Id) (name : string)
    (args : option (list (string * Value))) (l : EventLoop) :
  executor srv = Some ex → name ≠ "" → getTool name ex = Some tool →
  let run := apply (handler tool) (Object_values (default [] args)) in
  let request := callOf i (Some name) args in
  (∀ delay v, ownSettlement run = Some (delay, Fulfilled v) →
     ∃ l', handleMCPRequest srv request l
           = Resolved
               match stringifyError v with
               | None => respond request (CallResult (Some v) false)
               | Some complaint => errorResponse request (ErrorObject complaint)
               end l')
  ∧ (∀ e message, FailsWith run e → Reported e message →
       ∃ l', handleMCPRequest srv request l
             = Resolved
                 (errorResponse request
                    (ErrorObject (if JsString.isEmpty message
                                  then "Tool execution failed" else message))) l')
  ∧ (∀ complaint, FailsWith run (Unprintable complaint) →
       ∃ l', handleMCPRequest srv request l
             = Resolved (errorResponse request complaint) l').
Proof.
  intros Hex Hname Hget run request.
  unfold handleMCPRequest, handleToolsCall, executorOf. simpl. rewrite Hex.
  destruct name as [|c name]; [done|]. unfold getTool in Hget.
  rewrite (executeTool_registered _ _ _ _ _ Hget). cbv zeta. fold run.
  split_and!.
  - intros delay v ->. unfold settledAs. simpl.
    destruct (stringifyError v); by eexists.
  - intros e message Hfail Hmsg%errorMessage_Reported.
    destruct (ownSettlement_FailsWith _ _ Hfail) as [delay ->].
    unfold settledAs. rewrite Hmsg. simpl.
    eexists. do 4 f_equal. by destruct message.
  - intros complaint Hfail.
    destruct (ownSettlement_FailsWith _ _ Hfail) as [delay ->].
    unfold settledAs. simpl. by eexists.
Qed.

Lemma tools_call_reports_handler_witness :
  (∃ l', handleMCPRequest loadedServer
           (callOf (Some (IdNumber 2)) (Some "fail") None) Scenario.idle
         = Resolved (errorResponse (callOf (Some (IdNumber 2)) (Some "fail") None)
                       (ErrorObject "Error: Radius cannot be negative")) l')
  ∧ (∃ l', handleMCPRequest loadedServer
             (callOf (Some (IdNumber 3)) (Some "big") None) Scenario.idle
           = Resolved (errorResponse (callOf (Some (IdNumber 3)) (Some "big") None)
                         (ErrorObject "Do not know how to serialize a BigInt")) l')
  ∧ (∃ l', handleMCPRequest loadedServer
             (callOf (Some (IdNumber 4)) (Some "bare") None) Scenario.idle
           = Resolved (errorResponse (callOf (Some (IdNumber 4)) (Some "bare") None)
                         (ErrorObject "Cannot convert object to primitive value")) l').
Proof.
  split_and!.
  - refine (proj1 (proj2 (tools_call_reports_handler loadedServer Scenario.executor
              (describe "fail" Scenario.fail) (Some (IdNumber 2)) "fail" None
              Scenario.idle _ _ _))
              (ForeignError "Error" "Radius cannot be negative")
              "Error: Radius cannot be negative" _ _).
    + reflexivity.
    + done.
    + vm_compute. reflexivity.
    + left. reflexivity.
    + by apply (reported_foreign "Error" "Radius cannot be negative").
  - refine (proj1 (tools_call_reports_handler loadedServer Scenario.executor
              (describe "big" Scenario.big) (Some (IdNumber 3)) "big" None
              Scenario.idle _ _ _) 0%N (VBigInt 10) _).
    + reflexivity.
    + done.
    + vm_compute. reflexivity.
    + vm_compute. reflexivity.
  - refine (proj2 (proj2 (tools_call_reports_handler loadedServer Scenario.executor
              (describe "bare" Scenario.bare) (Some (IdNumber 4)) "bare" None
              Scenario.idle _ _ _)) Sandbox.unprintable _).
    + reflexivity.
    + done.
    + vm_compute. reflexivity.
    + left. reflexivity.
Defined.

(** X12. The options of a server are never left empty: the port, the
    timeout and the memory limit are not 0 and the host is not the empty
    string; a port other than 0 and a host other than the empty string are
    kept as given, and no executor is bound yet. *)
Theorem newMCPServer_options (o : SandboxOptions) :
  port (options (newMCPServer o)) ≠ 0%N
  ∧ host (options (newMCPServer o)) ≠ ""
  ∧ timeout (options (newMCPServer o)) ≠ 0%N
  ∧ maxMemory (options (newMCPServer o)) ≠ 0%N
  ∧ executor (newMCPServer o) = None
  ∧ (∀ p, opt_port o = Some p → p ≠ 0%N → port (options (newMCPServer o)) = p)
  ∧ (∀ h, opt_host o = Some h → h ≠ "" → host (options (newMCPServer o)) = h).
Proof.
  destruct o as [[[|p]|] [[|c h]|] [[|t]|] [[|m]|]]; simpl;
    split_and!; try done; intros ? [= <-]; done.
Qed.

Lemma newMCPServer_options_witness :
  port (options (newMCPServer {| opt_port := Some 8080%N; opt_host := Some "0.0.0.0";
                                 opt_timeout := Some 0%N; opt_maxMemory := None |}))
  = 8080%N
  ∧ host (options (newMCPServer {| opt_port := Some 8080%N; opt_host := Some "0.0.0.0";
                                   opt_timeout := Some 0%N; opt_maxMemory := None |}))
    = "0.0.0.0".
Proof.
  pose proof (newMCPServer_options
                {| opt_port := Some 8080%N; opt_host := Some "0.0.0.0";
                   opt_timeout := Some 0%N; opt_maxMemory := None |})
    as (_ & _ & _ & _ & _ & Hp & Hh).
  split; [by apply Hp|by apply Hh].
Defined.

End DispatchFacts.

(** ** The table of push clients *)

Module PushFacts.
Import Js Notions Push.
Import Sandbox (Map_get, Map_set).
Local Open Scope list_scope.

Section Table.
Context {V : Type}.
Implicit Types (m d : list (string * V)) (k : string) (v : V).

Lemma Map_get_app_fresh k d m :
  k ∉ map fst d → Map_get k (d ++ m) = Map_get k m.
Proof.
  induction d as [|[k0 v0] d IH]; simpl; [done|].
  rewrite not_elem_of_cons. intros [Hne Hk].
  apply not_eq_sym, String.eqb_neq in Hne. rewrite Hne. by apply IH.
Qed.

Lemma Map_set_app_fresh k v v0 d m :
  k ∉ map fst d → Map_set k v (d ++ (k, v0) :: m) = (d ++ (k, v) :: m)%list.
Proof.
  induction d as [|[k1 v1] d IH]; simpl.
  - by rewrite String.eqb_refl.
  - rewrite not_elem_of_cons. intros [Hne Hk].
    apply not_eq_sym, String.eqb_neq in Hne. rewrite Hne. by rewrite IH.
Qed.

Lemma Map_delete_app_fresh k v0 d m :
  k ∉ map fst d → Map_delete k (d ++ (k, v0) :: m) = (d ++ m)%list.
Proof.
  induction d as [|[k1 v1] d IH]; simpl.
  - by rewrite String.eqb_refl.
  - rewrite not_elem_of_cons. intros [Hne Hk].
    apply not_eq_sym, String.eqb_neq in Hne. rewrite Hne. by rewrite IH.
Qed.

Lemma UniqueKeys_middle k v d m :
  UniqueKeys (d ++ (k, v) :: m) → (k ∉ map fst d) ∧ (k ∉ map fst m).
Proof.
  unfold UniqueKeys. rewrite map_app. simpl.
  intros (_ & Hdis & [Hk _]%NoDup_cons)%NoDup_app. split; [|done].
  intros Hin. apply (Hdis _ Hin). by left.
Qed.

Lemma UniqueKeys_replace k v v' d m :
  UniqueKeys (d ++ (k, v) :: m) → UniqueKeys (app (app d [(k, v')]) m).
Proof.
  unfold UniqueKeys. by rewrite <- app_assoc, !map_app.
Qed.

Lemma UniqueKeys_remove k v d m :
  UniqueKeys (d ++ (k, v) :: m) → UniqueKeys (d ++ m).
Proof.
  unfold UniqueKeys. rewrite !map_app. simpl.
  intros (Hd & Hdis & [_ Hm]%NoDup_cons)%NoDup_app.
  apply NoDup_app. split_and!; [done| |done].
  intros x Hx Hin. apply (Hdis _ Hx). by right.
Qed.

End Table.

Section Clients.
Context {D : Type} `{!Serialisable D}.
Implicit Types (clients todo seen : list (string * SSEClient D)).

Lemma broadcast_from (now : N) (data : D) todo : ∀ seen,
  UniqueKeys (seen ++ todo) →
  foldl (λ cs clientId, sendSSEMessage now clientId data cs)
    (seen ++ todo) (map fst todo)
  = (seen ++ omap (deliver now data) todo)%list.
Proof.
  induction todo as [|[k c] todo IH]; intros seen Hu; [done|].
  destruct (UniqueKeys_middle _ _ _ _ Hu) as [Hseen Htodo].
  simpl. unfold sendSSEMessage at 2, deliver at 1.
  rewrite Map_get_app_fresh by done. simpl. rewrite String.eqb_refl. simpl.
  destruct (destroyed (response c)); simpl.
  - rewrite (cons_middle _ seen todo), app_assoc.
    rewrite IH by (by apply (UniqueKeys_replace k c c)).
    by rewrite <- app_assoc.
  - destruct (stringifyThrows data || writeThrows (response c)); simpl.
    + rewrite Map_delete_app_fresh by done.
      apply IH. by apply (UniqueKeys_remove k c).
    + rewrite Map_set_app_fresh by done.
      rewrite (cons_middle _ seen todo), app_assoc.
      rewrite IH by (by apply (UniqueKeys_replace k c)).
      by rewrite <- app_assoc.
Qed.

Lemma broadcast_eq (now : N) (data : D) clients :
  UniqueKeys clients →
  broadcastSSEMessage now data clients = omap (deliver now data) clients.
Proof. intros Hu. by apply (broadcast_from now data clients []). Qed.

Definition fresh (now : N) (entry : string * SSEClient D) : bool :=
  negb (isStale now (snd entry)).

Definition stale (now : N) (entry : string * SSEClient D) : bool :=
  isStale now (snd entry).

Lemma pingTick_from (now : N) todo : ∀ seen closed,
  UniqueKeys (seen ++ todo) →
  foldl (λ st entry,
           if isStale now (snd entry)
           then (Map_delete (fst entry) (fst st), (snd st ++ [fst entry])%list)
           else st)
        (seen ++ todo, closed) todo
  = ((seen ++ List.filter (fresh now) todo)%list,
     (closed ++ map fst (List.filter (stale now) todo))%list).
Proof.
  induction todo as [|[k c] todo IH]; intros seen closed Hu; simpl.
  - by rewrite !app_nil_r.
  - destruct (UniqueKeys_middle _ _ _ _ Hu) as [Hseen Htodo].
    unfold fresh, stale. simpl. destruct (isStale now c); simpl.
    + rewrite Map_delete_app_fresh by done.
      rewrite IH by (by apply (UniqueKeys_remove k c)).
      by rewrite <- app_assoc.
    + rewrite (cons_middle _ seen todo), app_assoc.
      rewrite IH by (by apply (UniqueKeys_replace k c c)).
      by rewrite <- app_assoc.
Qed.

Lemma pingTick_eq (now : N) clients :
  UniqueKeys clients →
  pingTick now clients
  = (List.filter (fresh now) clients, map fst (List.filter (stale now) clients)).
Proof. intros Hu. by apply (pingTick_from now clients [] []). Qed.

Lemma deliver_key (now : N) (data : D) (entry entry' : string * SSEClient D) :
  deliver now data entry = Some entry' → fst entry' = fst entry.
Proof.
  unfold deliver. repeat case_match; by intros [= <-].
Qed.

Lemma keys_delivered (now : N) (data : D) clients (k : string) :
  k ∈ map fst (omap (deliver now data) clients) → k ∈ map fst clients.
Proof.
  induction clients as [|entry clients IH]; simpl; [done|].
  destruct (deliver now data entry) as [entry'|] eqn:Hd; simpl.
  - apply deliver_key in Hd as <-.
    intros [->|Hin]%elem_of_cons; [by left|right; by apply IH].
  - intros Hin. right. by apply IH.
Qed.

Lemma UniqueKeys_delivered (now : N) (data : D) clients :
  UniqueKeys clients → UniqueKeys (omap (deliver now data) clients).
Proof.
  unfold UniqueKeys. induction clients as [|entry clients IH]; simpl; [done|].
  intros [Hk Hu]%NoDup_cons.
  destruct (deliver now data entry) as [entry'|] eqn:Hd; simpl; [|by apply IH].
  apply deliver_key in Hd as ->. apply NoDup_cons. split; [|by apply IH].
  intros Hin. by apply Hk, (keys_delivered now data).
Qed.

Lemma delivered_lastPing (now : N) (data : D) clients (entry : string * SSEClient D) :
  entry ∈ omap (deliver now data) clients →
  destroyed (response (snd entry)) = false → lastPing (snd entry) = now.
Proof.
  intros (old & Hold & Hd)%list_elem_of_omap. unfold deliver in Hd.
  destruct (destroyed (response (snd old))) eqn:Hdes; simplify_eq/=.
  - by rewrite Hdes.
  - by destruct (stringifyThrows data || writeThrows (response (snd old)));
      simplify_eq/=.
Qed.

Lemma Map_get_delete (k k' : string) clients :
  UniqueKeys clients →
  Map_get k' (Map_delete k clients)
  = if decide (k = k') then None else Map_get k' clients.
Proof.
  unfold UniqueKeys. induction clients as [|[k0 c0] clients IH]; simpl.
  - by case_decide.
  - intros [Hk0 Hu]%NoDup_cons. destruct (String.eqb k0 k) eqn:Hk.
    + apply String.eqb_eq in Hk as ->. case_decide as Hkk.
      * subst. by apply RegistryFacts.Map_get_None.
      * by apply String.eqb_neq in Hkk as ->.
    + simpl. rewrite IH by done. apply String.eqb_neq in Hk.
      destruct (String.eqb k0 k') eqn:Hk'; [|done].
      apply String.eqb_eq in Hk' as ->. by case_decide.
Qed.

(** X13. One tick of the sweep, on a table with distinct client ids:
    the clients kept are those whose last activity is at most 60000 ms old,
    in their order; the responses ended are those of the other clients, each
    of them once. *)
Theorem pingTick_evicts_stale (now : N) clients :
  UniqueKeys clients →
  pingTick now clients
  = (List.filter (λ entry, negb (60000 <? now - lastPing (snd entry))%N) clients,
     map fst (List.filter (λ entry, (60000 <? now - lastPing (snd entry))%N) clients))
  ∧ NoDup (snd (pingTick now clients)).
Proof.
  intros Hu. rewrite pingTick_eq by done. split; [done|]. simpl.
  unfold UniqueKeys in Hu. clear -Hu.
  induction clients as [|entry clients IH]; simpl; [apply NoDup_nil_2|].
  apply NoDup_cons in Hu as [Hk Hu].
  destruct (stale now entry); simpl; [|by apply IH].
  apply NoDup_cons. split; [|by apply IH].
  intros (e & Heq & Hin)%list_elem_of_fmap. apply Hk. rewrite Heq.
  apply list_elem_of_fmap_2. apply list_elem_of_In in Hin.
  apply filter_In in Hin as [Hin _]. by apply list_elem_of_In.
Qed.

(** X14. A broadcast treats every client on its own, on a table with
    distinct client ids: a client whose stream is destroyed is left as it
    is; when the message cannot be turned into JSON every other client is
    removed; when it can, a client whose write throws is removed, and every
    other client gets the message written and its last activity set to the
    time of the broadcast; a failing write changes nothing for the other
    clients. *)
Theorem broadcast_isolates_clients (now : N) (data : D) clients :
  UniqueKeys clients →
  broadcastSSEMessage now data clients = omap (deliver now data) clients
  ∧ (stringifyThrows data = true →
       broadcastSSEMessage now data clients
       = List.filter (λ entry, destroyed (response (snd entry))) clients)
  ∧ (stringifyThrows data = false →
       ∀ entry, entry ∈ clients →
         destroyed (response (snd entry)) = false →
         writeThrows (response (snd entry)) = false →
         (fst entry,
          {| client_id := client_id (snd entry);
             response := write (DataLine data) (response (snd entry));
             lastPing := now |}) ∈ broadcastSSEMessage now data clients).
Proof.
  intros Hu. rewrite broadcast_eq by done. split_and!; [done| |].
  - intros Hthrows. clear Hu.
    induction clients as [|entry clients IH]; simpl; [done|].
    unfold deliver at 1. rewrite Hthrows.
    change (list_omap _ _ (deliver now data) clients)
      with (omap (deliver now data) clients).
    rewrite IH. by destruct (destroyed (response (snd entry))).
  - intros Hjson entry Hin Hdes Hwrite.
    apply list_elem_of_omap. exists entry. split; [done|].
    unfold deliver. by rewrite Hdes, Hjson, Hwrite.
Qed.

(** X15. A message keeps its receivers: after a broadcast at [now], a
    tick of the sweep up to 60000 ms later removes no client left in the
    table whose stream is not destroyed. *)
Theorem broadcast_keeps_receivers (now t : N) (data : D) clients
    (entry : string * SSEClient D) :
  UniqueKeys clients → (t ≤ now + 60000)%N →
  entry ∈ broadcastSSEMessage now data clients →
  destroyed (response (snd entry)) = false →
  entry ∈ fst (pingTick t (broadcastSSEMessage now data clients)).
Proof.
  intros Hu Ht Hin Hdes. rewrite broadcast_eq in * by done.
  rewrite pingTick_eq by (by apply UniqueKeys_delivered). simpl.
  apply list_elem_of_In, filter_In. split; [by apply list_elem_of_In|].
  unfold fresh, isStale. rewrite (delivered_lastPing now data clients) by done.
  apply negb_true_iff, N.ltb_ge. lia.
Qed.

(** X16. A heartbeat is no activity: on a table with distinct client ids,
    every client found after a heartbeat was there before, with the same
    time of last activity. *)
Theorem heartbeat_keeps_lastPing (clientId k : string) clients (c' : SSEClient D) :
  UniqueKeys clients →
  Map_get k (heartbeat clientId clients) = Some c' →
  ∃ c, Map_get k clients = Some c ∧ lastPing c' = lastPing c.
Proof.
  intros Hu. unfold heartbeat.
  destruct (Map_get clientId clients) as [c|] eqn:Hc; [|by eauto].
  destruct (destroyed (response c)); [by eauto|].
  destruct (writeThrows (response c)).
  - rewrite Map_get_delete by done. case_decide; [done|by eauto].
  - destruct (decide (clientId = k)) as [->|Hne].
    + rewrite SandboxFacts.Map_get_set_eq. intros [= <-]. eauto.
    + rewrite RegistryFacts.Map_get_set_ne by done. eauto.
Qed.

End Clients.

(** Three clients: one in good health, one whose write throws, one whose
    stream is destroyed. *)
Definition table : list (string * SSEClient string) :=
  [ ("a", {| client_id := "a";
             response := {| destroyed := false; writeThrows := false; written := [] |};
             lastPing := 1000 |});
    ("b", {| client_id := "b";
             response := {| destroyed := false; writeThrows := true; written := [] |};
             lastPing := 1000 |});
    ("c", {| client_id := "c";
             response := {| destroyed := true; writeThrows := false; written := [] |};
             lastPing := 1000 |}) ].

Lemma table_unique : UniqueKeys table.
Proof.
  unfold UniqueKeys. simpl.
  repeat (apply NoDup_cons_2;
    [intros Hin; apply list_elem_of_In in Hin; simpl in Hin; intuition discriminate|]).
  apply NoDup_nil_2.
Defined.

Lemma pingTick_evicts_stale_witness :
  pingTick 70000 table = ([], ["a"; "b"; "c"]).
Proof.
  exact (proj1 (pingTick_evicts_stale 70000 table table_unique)).
Defined.

(** The same clients on the channel of the tool results, and the
    notification of a tool that returned a [BigInt]. *)
Definition notified : list (string * SSEClient Routes.ToolResult) :=
  map (λ entry, (fst entry,
                 {| client_id := client_id (snd entry);
                    response := {| destroyed := destroyed (response (snd entry));
                                   writeThrows := writeThrows (response (snd entry));
                                   written := [] |};
                    lastPing := lastPing (snd entry) |})) table.

Definition bigResult : Routes.ToolResult :=
  {| Routes.note_toolName := Some "big";
     Routes.note_arguments := Some [];
     Routes.note_result :=
       Routes.ExecutionOf
         {| Sandbox.success := true; Sandbox.result := Some (VBigInt 10);
            Sandbox.error := None; Sandbox.toolName := "big";
            Sandbox.executionTime := 0 |};
     Routes.note_timestamp := 2000 |}.

Lemma notified_unique : UniqueKeys notified.
Proof.
  unfold UniqueKeys. simpl.
  repeat (apply NoDup_cons_2;
    [intros Hin; apply list_elem_of_In in Hin; simpl in Hin; intuition discriminate|]).
  apply NoDup_nil_2.
Defined.

Lemma broadcast_isolates_clients_witness :
  map fst (broadcastSSEMessage 2000 "hello" table) = ["a"; "c"]
  ∧ map fst (broadcastSSEMessage 2000 bigResult notified) = ["c"].
Proof.
  split.
  - rewrite (proj1 (broadcast_isolates_clients 2000 "hello" table table_unique)).
    reflexivity.
  - rewrite (proj1 (proj2 (broadcast_isolates_clients 2000 bigResult notified
                             notified_unique))) by reflexivity.
    reflexivity.
Defined.

Lemma broadcast_keeps_receivers_witness :
  let a := ("a", {| client_id := "a";
                    response := {| destroyed := false; writeThrows := false;
                                   written := [DataLine "hello"] |};
                    lastPing := 2000 |}) in
  a ∈ fst (pingTick 62000 (broadcastSSEMessage 2000 "hello" table)).
Proof.
  intros a.
  apply (broadcast_keeps_receivers 2000 62000 "hello" table a table_unique).
  - vm_compute. discriminate.
  - vm_compute. apply list_elem_of_here.
  - reflexivity.
Defined.

Lemma heartbeat_keeps_lastPing_witness :
  ∃ c, Map_get "a" table = Some c ∧ 1000%N = lastPing c.
Proof.
  refine (heartbeat_keeps_lastPing "a" "a" table
            {| client_id := "a";
               response := {| destroyed := false; writeThrows := false;
                              written := [CommentLine "heartbeat"] |};
               lastPing := 1000 |} table_unique _).
  vm_compute. reflexivity.
Defined.

End PushFacts.

(** ** The routes *)

Module RoutesFacts.
Import Js Reflection Notions Spec.
Import Sandbox (EventLoop, Outcome, Resolved, RaisedOut, Pending, ToolExecutor,
                ExecutionResult, getTool, ownSettlement, errorMessage, now).
Import Server Push Routes SandboxFacts DispatchFacts.

(** X17. The JSON-RPC route never answers 500: whenever it replies, the
    status is 200 and the body is a well-formed response to the request,
    errors included; the table of clients is touched by a [tools/call]
    only, and only a [tools/call] can be left without a reply. *)
Theorem postJsonRpc_replies_200 (srv : MCPServer) (message : MCPMessage)
    (clients : list (string * SSEClient ToolResult)) (l : EventLoop) :
  match postJsonRpc srv message clients l with
  | Replied reply clients' =>
      status reply = 200%N ∧ Answers message (body reply)
      ∧ (method message ≠ Some "tools/call" → clients' = clients)
  | Unanswered => method message = Some "tools/call"
  end.
Proof.
  unfold postJsonRpc. pose proof (dispatch_answers srv message l) as H.
  destruct (handleMCPRequest srv message l) as [response l'|e l'|l']; [|done..].
  split_and!; [done..|]. intros Hm.
  destruct (method message) as [m|]; [|done]. simpl.
  destruct (String.eqb m "tools/call") eqn:Heq; [|done].
  apply String.eqb_eq in Heq as ->. done.
Qed.

Lemma postJsonRpc_replies_200_witness :
  ∃ reply, postJsonRpc loadedServer
             {| id := Some (IdNumber 3); method := Some "ping"; params := None;
                result := None; error := None |} [] Scenario.idle
           = Replied reply [] ∧ status reply = 200%N.
Proof.
  pose proof (postJsonRpc_replies_200 loadedServer
                {| id := Some (IdNumber 3); method := Some "ping"; params := None;
                   result := None; error := None |} [] Scenario.idle) as H.
  destruct (postJsonRpc _ _ _ _) as [reply clients'|] eqn:Hpost; [|discriminate H].
  destruct H as (Hs & _ & Hc). rewrite Hc by discriminate. eauto.
Defined.

(** X18. The legacy execute route, with an executor bound.  A tool
    that is not registered is answered with the status 500 and the message
    [Tool '<name>' not found], without notifying any client.  When the call
    of a registered tool returns, the clients are notified, and the answer is
    200 with the execution result (also when the tool failed) if the result
    can be turned into JSON, and 500 with the complaint of [JSON.stringify]
    if it cannot.  When the call raises, because the failure of the handler
    cannot be turned into a message, the answer is 500 with the message of
    what the conversion threw.  The route does not answer when the call
    never ends, nor when what the conversion threw cannot be turned into a
    message either. *)
Theorem postExecute_status (srv : MCPServer) (ex : ToolExecutor) (toolName : string)
    (args : option (list (string * Value)))
    (clients : list (string * SSEClient ToolResult)) (l : EventLoop) :
  executor srv = Some ex →
  match postExecute srv toolName args clients l with
  | Replied reply clients' =>
      match getTool toolName ex with
      | None =>
          reply = {| status := 500;
                     body := ExecuteFailure ("Tool '" ++ toolName ++ "' not found")
                               toolName |}
          ∧ clients' = clients
      | Some _ =>
          match Sandbox.executeTool ex toolName (default [] args) l with
          | Resolved r l' =>
              reply = match Sandbox.result r ≫= stringifyError with
                      | None => {| status := 200; body := ExecuteResult r |}
                      | Some complaint =>
                          {| status := 500;
                             body := ExecuteFailure complaint toolName |}
                      end
              ∧ clients' = broadcastSSEMessage (now l')
                             {| note_toolName := Some toolName;
                                note_arguments := Some (default [] args);
                                note_result := ExecutionOf r;
                                note_timestamp := now l' |} clients
          | RaisedOut e _ =>
              ∃ message,
                Reported e message
                ∧ reply = {| status := 500;
                             body := ExecuteFailure message toolName |}
                ∧ clients' = clients
          | Pending _ => False
          end
      end
  | Unanswered =>
      is_Some (getTool toolName ex)
      ∧ ((∃ l', Sandbox.executeTool ex toolName (default [] args) l = Pending l')
         ∨ (∃ complaint l',
              Sandbox.executeTool ex toolName (default [] args) l
              = RaisedOut (Unprintable complaint) l'))
  end.
Proof.
  intros Hex. unfold postExecute, executorOf. rewrite Hex.
  destruct (getTool toolName ex) as [tool|] eqn:Hget; unfold getTool in Hget.
  - rewrite (executeTool_registered _ _ _ _ _ Hget). cbv zeta.
    destruct (ownSettlement _) as [[delay [v|e]]|]; unfold settledAs.
    + simpl. by destruct (stringifyError v).
    + destruct (errorMessage e) as [message|complaint]; simpl; [done|].
      unfold executeFailed.
      destruct (errorMessage complaint) as [message|complaint'] eqn:Hc.
      * exists message. split; [by apply Reported_errorMessage|done].
      * apply errorMessage_Unprintable in Hc as ->.
        split; [done|]. right. by eexists _, _.
    + split; [done|]. left. by eexists.
  - unfold Sandbox.executeTool. rewrite Hget. done.
Qed.

Lemma postExecute_status_witness :
  postExecute loadedServer "missing" None [] Scenario.idle
  = Replied {| status := 500;
               body := ExecuteFailure "Tool 'missing' not found" "missing" |} []
  ∧ postExecute loadedServer "big" None [] Scenario.idle
    = Replied {| status := 500;
                 body := ExecuteFailure "Do not know how to serialize a BigInt"
                           "big" |} []
  ∧ postExecute loadedServer "bare" None [] Scenario.idle
    = Replied {| status := 500;
                 body := ExecuteFailure "Cannot convert object to primitive value"
                           "bare" |} []
  ∧ ∃ r, postExecute loadedServer "fail" None [] Scenario.idle
         = Replied {| status := 200; body := ExecuteResult r |} []
         ∧ Sandbox.error r = Some "Error: Radius cannot be negative".
Proof.
  split_and!.
  - pose proof (postExecute_status loadedServer Scenario.executor "missing" None []
                  Scenario.idle eq_refl) as H.
    destruct (postExecute _ _ _ _ _) as [reply clients'|] eqn:Hpost.
    + vm_compute in H. by destruct H as [-> ->].
    + vm_compute in Hpost. discriminate Hpost.
  - pose proof (postExecute_status loadedServer Scenario.executor "big" None []
                  Scenario.idle eq_refl) as H.
    destruct (postExecute _ _ _ _ _) as [reply clients'|] eqn:Hpost.
    + vm_compute in H. by destruct H as [-> ->].
    + vm_compute in Hpost. discriminate Hpost.
  - pose proof (postExecute_status loadedServer Scenario.executor "bare" None []
                  Scenario.idle eq_refl) as H.
    destruct (postExecute _ _ _ _ _) as [reply clients'|] eqn:Hpost.
    + simpl in H. destruct H as (message & Hmsg & -> & ->).
      by inversion Hmsg.
    + vm_compute in Hpost. discriminate Hpost.
  - pose proof (postExecute_status loadedServer Scenario.executor "fail" None []
                  Scenario.idle eq_refl) as H.
    destruct (postExecute _ _ _ _ _) as [reply clients'|] eqn:Hpost.
    + vm_compute in H. destruct H as [-> ->]. by eexists.
    + vm_compute in Hpost. discriminate Hpost.
Defined.

(** X19. The MCP execute route answers a failed call of a registered
    tool with the status 200, [isError = true] and no content, when the
    failure can be turned into a message: that message is not part of the
    reply.  When it cannot, the route answers 500 with the message of what
    the conversion threw, and no client is notified (it does not answer when
    that cannot be turned into a message either).  Without a tool name it
    answers 500 with [Tool 'undefined' not found]. *)
Theorem postMcpExecute_failure (srv : MCPServer) (ex : ToolExecutor)
    (toolName : string) (tool : MCPTool) (args : option (list (string * Value)))
    (clients : list (string * SSEClient ToolResult)) (l : EventLoop) (e : Thrown) :
  executor srv = Some ex → getTool toolName ex = Some tool →
  FailsWith (apply (handler tool) (Object_values (default [] args))) e →
  ((∃ message, Reported e message) →
     ∃ clients',
       postMcpExecute srv (Some toolName) args clients l
       = Replied {| status := 200; body := McpContent None true |} clients')
  ∧ (∀ complaint message, e = Unprintable complaint → Reported complaint message →
       postMcpExecute srv (Some toolName) args clients l
       = Replied {| status := 500; body := McpFailure (-32603) message |} clients)
  ∧ (∀ complaint, e = Unprintable (Unprintable complaint) →
       postMcpExecute srv (Some toolName) args clients l = Unanswered)
  ∧ postMcpExecute srv None args clients l
    = Replied {| status := 500;
                 body := McpFailure (-32603) "Tool 'undefined' not found" |} clients.
Proof.
  intros Hex Hget Hfail. unfold postMcpExecute, executorOf. rewrite Hex.
  unfold getTool in Hget.
  rewrite (executeTool_registered _ _ _ _ _ Hget). cbv zeta.
  destruct (ownSettlement_FailsWith _ _ Hfail) as [delay ->]. unfold settledAs.
  split_and!; [| | |done].
  - intros [message Hmsg%errorMessage_Reported]. rewrite Hmsg. simpl. by eexists.
  - intros complaint message -> Hmsg%errorMessage_Reported. simpl.
    unfold mcpExecuteFailed. by rewrite Hmsg.
  - by intros complaint ->.
Qed.

Lemma postMcpExecute_failure_witness :
  (∃ clients',
     postMcpExecute loadedServer (Some "fail") None [] Scenario.idle
     = Replied {| status := 200; body := McpContent None true |} clients')
  ∧ postMcpExecute loadedServer (Some "bare") None [] Scenario.idle
    = Replied {| status := 500;
                 body := McpFailure (-32603)
                           "Cannot convert object to primitive value" |} [].
Proof.
  split.
  - refine (proj1 (postMcpExecute_failure loadedServer Scenario.executor "fail"
                     (describe "fail" Scenario.fail) None [] Scenario.idle
                     (ForeignError "Error" "Radius cannot be negative") eq_refl
                     _ _) _).
    + vm_compute. reflexivity.
    + left. reflexivity.
    + eexists. by apply (reported_foreign "Error" "Radius cannot be negative").
  - refine (proj1 (proj2 (postMcpExecute_failure loadedServer Scenario.executor "bare"
                            (describe "bare" Scenario.bare) None [] Scenario.idle
                            (Unprintable Sandbox.unprintable) eq_refl _ _))
              Sandbox.unprintable _ eq_refl _).
    + vm_compute. reflexivity.
    + left. reflexivity.
    + apply reported_error.
Defined.

End RoutesFacts.

(** ** More on the reflector *)

Module ReflectorFacts.
Import JsString Regex Js Reflection Notions Spec JsStringFacts InferenceFacts WalkFacts.

Local Arguments describe : simpl never.

(** *** Names of parameters *)

Lemma elem_of_consHead (c0 : ascii) (parts : list string) (part : string) :
  part ∈ consHead c0 parts →
  part = String c0 "" ∨ (∃ h, part = String c0 h ∧ h ∈ parts) ∨ part ∈ parts.
Proof.
  destruct parts as [|h t]; simpl.
  - intros ->%list_elem_of_singleton. by left.
  - intros [->|Hin]%elem_of_cons.
    + right. left. exists h. split; [done|by left].
    + right. right. by right.
Qed.

(** No part of a split holds the separator. *)
Lemma split_part_no_sep (sep : ascii) (s part : string) :
  part ∈ split sep s → occurs sep part = false.
Proof.
  revert part. induction s as [|c s IH]; intros part; simpl.
  - by intros ->%list_elem_of_singleton.
  - destruct (eqb_ascii c sep) eqn:Hc.
    + intros [->|Hin]%elem_of_cons; [done|by apply IH].
    + intros [->|[(h & -> & Hin)|Hin]]%elem_of_consHead; simpl; rewrite ?Hc;
        [done|by apply IH|by apply IH].
Qed.

(** A character that is not in a string is in no part of its split. *)
Lemma split_part_occurs (sep c : ascii) (s part : string) :
  occurs c s = false → part ∈ split sep s → occurs c part = false.
Proof.
  revert part. induction s as [|c0 s IH]; intros part; simpl.
  - by intros _ ->%list_elem_of_singleton.
  - intros [Hc0 Hs]%orb_false_iff. destruct (eqb_ascii c0 sep).
    + intros [->|Hin]%elem_of_cons; [done|by apply IH].
    + intros [->|[(h & -> & Hin)|Hin]]%elem_of_consHead; simpl; rewrite ?Hc0;
        [done|by apply IH|by apply IH].
Qed.

Lemma trimStart_occurs (c : ascii) (s : string) :
  occurs c s = false → occurs c (trimStart s) = false.
Proof.
  induction s as [|c0 s IH]; simpl; [done|].
  intros [Hc0 Hs]%orb_false_iff.
  destruct (isWhiteSpace c0); [by apply IH|]. simpl. by rewrite Hc0.
Qed.

Lemma trimEnd_occurs (c : ascii) (s : string) :
  occurs c s = false → occurs c (trimEnd s) = false.
Proof.
  induction s as [|c0 s IH]; simpl; [done|].
  intros [Hc0 Hs]%orb_false_iff.
  destruct (isWhiteSpace c0 && isEmpty (trimEnd s)); [done|].
  simpl. rewrite Hc0. by apply IH.
Qed.

Lemma trim_occurs (c : ascii) (s : string) :
  occurs c s = false → occurs c (trim s) = false.
Proof. intros H. by apply trimEnd_occurs, trimStart_occurs. Qed.

Lemma removeAll_occurs (cls : ascii → bool) (c : ascii) (s : string) :
  occurs c s = false ∨ cls c = true → occurs c (removeAll cls s) = false.
Proof.
  intros H. induction s as [|c0 s IH]; simpl; [done|].
  destruct (cls c0) eqn:Hcls.
  - apply IH. destruct H as [[_ ?]%orb_false_iff|?]; [by left|by right].
  - simpl. destruct H as [[Hc0 Hs]%orb_false_iff|Hc].
    + rewrite Hc0. apply IH. by left.
    + destruct (eqb_ascii c0 c) eqn:Heq.
      * apply Ascii.eqb_eq in Heq as ->. congruence.
      * apply IH. by right.
Qed.

Lemma beforeEquals_occurs (c : ascii) (s : string) :
  occurs c s = false ∨ c = "="%char → occurs c (beforeEquals s) = false.
Proof.
  intros H. induction s as [|c0 s IH]; simpl; [done|].
  destruct (eqb_ascii c0 "=") eqn:Heq; [done|]. simpl.
  destruct H as [[Hc0 Hs]%orb_false_iff| ->].
  - rewrite Hc0. apply IH. by left.
  - rewrite Heq. apply IH. by right.
Qed.

Lemma describeParameter_name (param : string) (p : MCPToolParameter) :
  describeParameter param = Normal p →
  name p = removeAll isDestructuring (trim (beforeEquals param))
  ∧ hasDefault p = includes "=" param.
Proof.
  unfold describeParameter.
  pose proof (split_lookup_0 param) as H0.
  destruct (split "=" param) as [|h t]; [done|]. simplify_eq/=.
  rewrite inferParameterType_eq. simpl. by intros [= <-].
Qed.

Lemma cmap_Forall2 {A B} (f : A → Completion B) (l : list A) (bs : list B) :
  cmap f l = Normal bs → Forall2 (λ a b, f a = Normal b) l bs.
Proof.
  revert bs. induction l as [|a l IH]; intros bs; simpl.
  - intros [= <-]. constructor.
  - destruct (f a) as [b|] eqn:Hb; [|done]. simpl.
    destruct (cmap f l) as [bs'|]; [|done]. simpl. intros [= <-].
    constructor; [done|by apply IH].
Qed.

(** A name is free of the punctuation of parameter lists. *)
Definition CleanName (n : string) : Prop :=
  Forall (λ c, occurs c n = false)
    ["{"; "}"; "["; "]"; "="; ","]%char.

Lemma token_name_clean (list token : string) :
  token ∈ map trim (split "," list) →
  CleanName (removeAll isDestructuring (trim (beforeEquals token))).
Proof.
  intros (part & -> & Hpart)%list_elem_of_fmap.
  apply split_part_no_sep in Hpart. unfold CleanName.
  repeat (apply List.Forall_cons);
    [apply removeAll_occurs; by right..| | |apply List.Forall_nil].
  - apply removeAll_occurs. left. apply trim_occurs, beforeEquals_occurs. by right.
  - apply removeAll_occurs. left. apply trim_occurs, beforeEquals_occurs. left.
    by apply trim_occurs.
Qed.

(** X20. No name of a parameter found by [extractParameters] holds a
    brace, a square bracket, an assignment sign or a comma, whatever the
    source text is. *)
Theorem extractParameters_names_clean (funcStr : string)
    (params : list MCPToolParameter) :
  extractParameters funcStr = Normal params →
  Forall (λ p, CleanName (name p)) params.
Proof.
  unfold extractParameters.
  destruct (search signaturePattern funcStr) as [[list|]|];
    [|intros [= <-]; constructor..].
  destruct (isEmpty list); [intros [= <-]; constructor|].
  intros Hmap%cmap_Forall2.
  apply Forall_forall. intros p Hp.
  apply list_elem_of_lookup in Hp as [i Hi].
  destruct (Forall2_lookup_r _ _ _ _ _ Hmap Hi) as (token & Htoken & Hdesc).
  apply describeParameter_name in Hdesc as [-> _].
  apply (token_name_clean list).
  apply list_elem_of_lookup_2 in Htoken.
  by apply list_elem_of_filter in Htoken as [_ ?].
Qed.

Lemma extractParameters_names_clean_witness :
  Forall (λ p, CleanName (name p))
    [ {| name := "a"; hasDefault := false; type := TString |};
      {| name := "b"; hasDefault := true; type := TNumber |} ].
Proof.
  apply (extractParameters_names_clean "function f({a}, [b] = 1) {}").
  vm_compute. reflexivity.
Defined.

(** *** The name patterns *)

Lemma includes_list_is (n : string) :
  includes "list" n = true → includes "is" n = true.
Proof.
  induction n as [|c n IH]; [done|].
  change (includes "list" (String c n))
    with (startsWith "list" (String c n) || includes "list" n).
  change (includes "is" (String c n))
    with (startsWith "is" (String c n) || includes "is" n).
  intros [Hstart|Hrest]%orb_true_iff.
  - apply orb_true_iff. right.
    destruct n as [|a [|b n]]; simpl in *;
      try (by rewrite ?andb_false_r in Hstart).
    apply andb_true_iff in Hstart as [_ Hstart].
    apply andb_true_iff in Hstart as [Ha Hstart].
    apply andb_true_iff in Hstart as [Hb _].
    by rewrite Ha, Hb.
  - apply orb_true_iff. right. by apply IH.
Qed.

Lemma typeOfName_array (n : string) :
  typeOfName n = TArray → includes "array" n = true.
Proof.
  unfold typeOfName. repeat case_match; try done. intros _.
  match goal with
  | H : includes "list" n || includes "array" n = true |- _ =>
      apply orb_true_iff in H as [Hlist|Harray]; [|done]
  end.
  apply includes_list_is in Hlist.
  match goal with
  | H : _ || includes "is" n = false |- _ =>
      apply orb_false_iff in H as [_ His]; congruence
  end.
Qed.

Lemma typeOfDefault_array (d : string) :
  typeOfDefault d = Some TArray → startsWith "[" d = true.
Proof. unfold typeOfDefault. by repeat case_match. Qed.

(** X21. A parameter is inferred as [array] only when its default value
    starts with an opening square bracket or its lower-cased name contains
    [array]: the pattern [list] never decides, since every name that
    contains [list] contains [is] and is taken as a [boolean]. *)
Theorem array_needs_bracket_or_name (param : string) :
  inferParameterType param = Normal TArray →
  (∃ d, defaultOf param = Some d ∧ startsWith "[" d = true)
  ∨ includes "array" (toLowerCase (nameOf param)) = true.
Proof.
  rewrite inferParameterType_eq. intros [= H]. revert H.
  unfold inferByPriority. rewrite <- typeOfName_firstMatch.
  destruct (defaultOf param) as [d|]; simpl.
  - rewrite <- typeOfDefault_firstMatch.
    destruct (typeOfDefault d) as [t|] eqn:Hd.
    + intros ->. left. exists d. split; [done|]. by apply typeOfDefault_array.
    + intros H. right. by apply typeOfName_array.
  - intros H. right. by apply typeOfName_array.
Qed.

Lemma array_needs_bracket_or_name_witness :
  includes "array" (toLowerCase (nameOf "itemsArray")) = true.
Proof.
  destruct (array_needs_bracket_or_name "itemsArray") as [(d & Hd & _)|H].
  - vm_compute. reflexivity.
  - vm_compute in Hd. discriminate Hd.
  - exact H.
Defined.

(** *** Descriptions *)

Lemma exec_Lit_fail {R} (p s : string) (cap : option string)
    (k : string → option string → option R) :
  startsWith p s = false → exec (Lit p) s cap k = None.
Proof.
  revert s k. induction p as [|a p IH]; intros s k; [done|]. simpl.
  destruct s as [|c s]; [done|]. intros [Ha|Hp]%andb_false_iff.
  - by rewrite Ha.
  - destruct (eqb_ascii a c); [|done]. by apply IH.
Qed.

Lemma search_Lit_fail (p : string) (r : regex) (s : string) :
  includes p s = false → search (Cat (Lit p) r) s = None.
Proof.
  induction s as [|c s IH].
  - simpl. intros [Hp _]%orb_false_iff. unfold matchHere. simpl.
    by rewrite exec_Lit_fail.
  - change (includes p (String c s))
      with (startsWith p (String c s) || includes p s).
    intros [Hp Hs]%orb_false_iff.
    change (search (Cat (Lit p) r) (String c s))
      with (orElse (matchHere (Cat (Lit p) r) (String c s)) (search (Cat (Lit p) r) s)).
    rewrite IH by done. unfold matchHere.
    change (exec (Cat (Lit p) r) (String c s) None (λ _ cap, Some cap))
      with (exec (Lit p) (String c s) None
              (λ s1 cap1, exec r s1 cap1 (λ _ cap, Some cap))).
    by rewrite exec_Lit_fail.
Qed.

(** X22. A function whose source text holds no opener of a
    documentation comment is described as [Execute <name> function]. *)
Theorem description_without_jsdoc (toolName : string) (func : Function) :
  includes "/**" (toString func) = false →
  ∃ tool, analyzeFunction toolName func = Normal tool
          ∧ description tool = "Execute " ++ toolName ++ " function".
Proof.
  intros Hdoc. exists (describe toolName func).
  split; [apply analyzeFunction_describe|].
  unfold describe. cbn [description]. unfold extractJSDoc, jsdocPattern.
  by rewrite search_Lit_fail.
Qed.

Lemma description_without_jsdoc_witness :
  ∃ tool, analyzeFunction "subtract" Scenario.subtract = Normal tool
          ∧ description tool = "Execute subtract function".
Proof.
  apply (description_without_jsdoc "subtract" Scenario.subtract).
  vm_compute. reflexivity.
Defined.

(** *** Exports *)

Lemma discoveredFrom_functions (i : nat) (funcs : list Function) :
  discoveredFrom i (map XFunction funcs)
  = imap (λ j func, (pretty (i + j)%nat, func)) funcs.
Proof.
  revert i. induction funcs as [|func funcs IH]; intros i; [done|].
  simpl. rewrite Nat.add_0_r. f_equal. rewrite IH.
  apply imap_ext. intros j x _. simpl. do 2 f_equal. lia.
Qed.

Lemma functions_reach_nothing (funcs : list Function) :
  existsb reaches (map XFunction funcs) = false.
Proof. by induction funcs. Qed.

Lemma described_indexed (key : nat → string) (funcs : list Function) :
  described (imap (λ i func, (key i, func)) funcs)
  = imap (λ i func, describe (key i) func) funcs.
Proof.
  revert key. induction funcs as [|func funcs IH]; intros key; [done|].
  unfold described in *. simpl. f_equal. apply (IH (key ∘ S)).
Qed.

(** X23. A module that exports an array of functions gets one tool for
    each of them, named by its index in the array. *)
Theorem analyzeExports_array (funcs : list Function) :
  analyzeExports (XArray (map XFunction funcs))
  = Normal (imap (λ i func, describe (pretty i) func) funcs).
Proof.
  rewrite analyzeExports_eq. simpl. rewrite functions_reach_nothing. f_equal.
  rewrite (discoveredFrom_functions 0). apply (described_indexed (λ i, pretty i)).
Qed.

End ReflectorFacts.

(** ** Loading a module *)

Module LoadFacts.
Import Js Reflection Notions Spec WalkFacts RegistryFacts.
Import Sandbox (ToolExecutor, getTool).
Import Server (MCPConfig, config_tools, info_name, toolInfo, generateMCPConfig).
Import Index.

(** A host with three modules: [./tools.js], whose exports are those of
    [Scenario]; [./loop.js], which exports an object that holds itself; and
    [./bare.js], which throws an object without a prototype.  Writing and
    listening succeed. *)
Definition host : Host :=
  {| runModule := λ path,
       if String.eqb path "./tools.js" then inr Scenario.moduleExports
       else if String.eqb path "./loop.js"
       then inr (XObject [("subtract", XFunction Scenario.subtract);
                          ("self", XAncestor)])
       else if String.eqb path "./bare.js" then inl (Unprintable Sandbox.unprintable)
       else inl (ErrorObject
                   ("ENOENT: no such file or directory, open '" ++ path ++ "'"));
     writeFile := λ _ _, None;
     listen := λ _ _, None;
     defaultConfigPath := "/work/mcp-config.json" |}.

Lemma reflectModule_eq (h : Host) (modulePath : string) :
  reflectModule h modulePath
  = match runModule h modulePath with
    | inl e =>
        match Sandbox.errorMessage e with
        | Normal cause => Throw (ErrorObject ("Failed to reflect module: " ++ cause))
        | Throw complaint => Throw complaint
        end
    | inr moduleExports =>
        if reachesItself moduleExports
        then Throw (ErrorObject ("Failed to reflect module: " ++ stackOverflow))
        else Normal (described (discoveredTools moduleExports))
    end.
Proof.
  unfold reflectModule, reflectionFailed.
  destruct (runModule h modulePath) as [e|exports].
  - by destruct (Sandbox.errorMessage e).
  - rewrite analyzeExports_eq. by destruct (reachesItself exports).
Qed.



Lemma loadModule_eq (h : Host) (modulePath : string) (sb : MCPSandbox)
    (config : MCPConfig) (sb' : MCPSandbox) :
  loadModule h modulePath sb = Normal (config, sb') →
  ∃ moduleExports,
    runModule h modulePath = inr moduleExports
    ∧ let found := described (discoveredTools moduleExports) in
      let ex := Sandbox.addTools found (Sandbox.newToolExecutor None) in
      config = generateMCPConfig (Server.setExecutor ex (server sb)) found
      ∧ sb' = {| reflectorTimeout := reflectorTimeout sb;
                 executor := Some ex;
                 server := Server.setExecutor ex (server sb) |}.
Proof.
  unfold loadModule. rewrite reflectModule_eq.
  destruct (runModule h modulePath) as [e|exports].
  - by destruct (Sandbox.errorMessage e).
  - destruct (reachesItself exports); [done|].
    simpl. intros [= <- <-]. by exists exports.
Qed.

Lemma timeout_addTools (ts : list MCPTool) (ex : ToolExecutor) :
  Sandbox.timeout (Sandbox.addTools ts ex) = Sandbox.timeout ex.
Proof.
  revert ex. induction ts as [|t ts IH]; intros ex; [done|].
  rewrite addTools_cons. by rewrite IH.
Qed.

(** X25. After a module is loaded, the executor of the facade is the one
    bound to the server, its timeout is 5000 ms whatever the options of the
    facade say, and the names of the tools in the configuration returned are
    exactly the names the executor knows: every tool announced can be
    called, and no other. *)
Theorem loadModule_registers (h : Host) (modulePath : string) (sb : MCPSandbox)
    (config : MCPConfig) (sb' : MCPSandbox) :
  loadModule h modulePath sb = Normal (config, sb') →
  ∃ ex, executor sb' = Some ex
        ∧ Server.executor (server sb') = Some ex
        ∧ Sandbox.timeout ex = 5000%N
        ∧ Server.options (server sb') = Server.options (server sb)
        ∧ ∀ n, n ∈ map info_name (config_tools config) ↔ is_Some (getTool n ex).
Proof.
  intros (exports & _ & -> & ->)%loadModule_eq.
  eexists. split_and!; try reflexivity.
  - simpl. by rewrite timeout_addTools.
  - intros n. rewrite getTool_addTools_is_Some. simpl.
    rewrite map_map. split; [by left|]. intros [?|[? ?]]; done.
Qed.

Lemma loadModule_registers_witness :
  ∃ config sb' ex,
    loadModule host "./tools.js"
      (newMCPSandbox {| Server.opt_port := None; Server.opt_host := None;
                        Server.opt_timeout := Some 10000%N;
                        Server.opt_maxMemory := None |})
    = Normal (config, sb')
    ∧ executor sb' = Some ex ∧ Sandbox.timeout ex = 5000%N.
Proof.
  destruct (loadModule host "./tools.js"
              (newMCPSandbox {| Server.opt_port := None; Server.opt_host := None;
                                Server.opt_timeout := Some 10000%N;
                                Server.opt_maxMemory := None |}))
    as [[config sb']|msg] eqn:Hload.
  - destruct (loadModule_registers _ _ _ _ _ Hload) as (ex & Hex & _ & Ht & _).
    by exists config, sb', ex.
  - vm_compute in Hload. discriminate Hload.
Defined.

(** X26. When the tools of the module loaded have pairwise distinct
    names, [saveConfig] writes the very configuration [loadModule] returned,
    to the path given or, if none or the empty one is given, to the default
    path; it returns that path, or fails as the write does. *)
Theorem saveConfig_writes_loaded_config (h h' : Host) (modulePath : string)
    (sb : MCPSandbox) (config : MCPConfig) (sb' : MCPSandbox)
    (outputPath : option string) :
  loadModule h modulePath sb = Normal (config, sb') →
  NoDup (map info_name (config_tools config)) →
  saveConfig h' outputPath sb'
  = let configPath := Server.stringOr outputPath (defaultConfigPath h') in
    match writeFile h' configPath config with
    | Some msg => Throw msg
    | None => Normal configPath
    end.
Proof.
  intros (exports & _ & -> & ->)%loadModule_eq Hnd.
  unfold saveConfig. simpl in *. rewrite map_map in Hnd. simpl in Hnd.
  by rewrite getTools_roundtrip.
Qed.

Lemma saveConfig_writes_loaded_config_witness :
  ∃ config sb',
    loadModule host "./tools.js"
      (newMCPSandbox DispatchFacts.plainOptions) = Normal (config, sb')
    ∧ saveConfig host (Some "") sb' = Normal "/work/mcp-config.json".
Proof.
  destruct (loadModule host "./tools.js" (newMCPSandbox DispatchFacts.plainOptions))
    as [[config sb']|msg] eqn:Hload.
  - exists config, sb'. split; [done|].
    rewrite (saveConfig_writes_loaded_config host host _ _ _ _ (Some "") Hload);
      [done|].
    vm_compute in Hload. injection Hload as <- _. vm_compute.
    repeat (apply NoDup_cons_2;
      [intros Hin; apply list_elem_of_In in Hin; simpl in Hin;
       intuition discriminate|]).
    apply NoDup_nil_2.
  - vm_compute in Hload. discriminate Hload.
Defined.

(** X27. After a module with pairwise distinct tool names is loaded, a
    [tools/list] request is answered with the tools of the configuration
    [loadModule] returned, in the same order. *)
Theorem tools_list_matches_config (h : Host) (modulePath : string)
    (sb : MCPSandbox) (config : MCPConfig) (sb' : MCPSandbox)
    (i : option Server.Id) (l : Sandbox.EventLoop) :
  loadModule h modulePath sb = Normal (config, sb') →
  NoDup (map info_name (config_tools config)) →
  Server.handleMCPRequest (server sb')
    {| Server.id := i; Server.method := Some "tools/list"; Server.params := None;
       Server.result := None; Server.error := None |} l
  = Sandbox.Resolved
      {| Server.id := i; Server.method := None; Server.params := None;
         Server.result := Some (Server.ToolsResult (config_tools config));
         Server.error := None |} l.
Proof.
  intros (exports & _ & -> & ->)%loadModule_eq Hnd.
  simpl in Hnd. rewrite map_map in Hnd. simpl in Hnd.
  unfold Server.handleMCPRequest, Server.executorOf. simpl.
  by rewrite getTools_roundtrip.
Qed.

Lemma tools_list_matches_config_witness :
  ∃ config sb',
    loadModule host "./tools.js" (newMCPSandbox DispatchFacts.plainOptions)
    = Normal (config, sb')
    ∧ Server.handleMCPRequest (server sb')
        {| Server.id := None; Server.method := Some "tools/list";
           Server.params := None; Server.result := None; Server.error := None |}
        Scenario.idle
      = Sandbox.Resolved
          {| Server.id := None; Server.method := None; Server.params := None;
             Server.result := Some (Server.ToolsResult (config_tools config));
             Server.error := None |} Scenario.idle.
Proof.
  destruct (loadModule host "./tools.js" (newMCPSandbox DispatchFacts.plainOptions))
    as [[config sb']|msg] eqn:Hload.
  - exists config, sb'. split; [done|].
    apply (tools_list_matches_config host "./tools.js" _ _ _ None Scenario.idle Hload).
    vm_compute in Hload. injection Hload as <- _. vm_compute.
    repeat (apply NoDup_cons_2;
      [intros Hin; apply list_elem_of_In in Hin; simpl in Hin;
       intuition discriminate|]).
    apply NoDup_nil_2.
  - vm_compute in Hload. discriminate Hload.
Defined.

End LoadFacts.
